(** * Room/session coordinator of the chat relay (backend/index.js)

    A shallow embedding of the server side of the chat application: the
    three in-memory registries ([rooms], [userSockets], [messageLimiter]),
    the validation helpers, the sliding-window rate limiter and the five
    socket event handlers, followed by the properties of the specification
    that are about them.

    Conventions of the embedding.
    - A JavaScript string is a [string]; its characters are read as the
      code units 0..255 (Latin-1), on which [trim] and [toLowerCase] are
      written out.
    - [Date.now()] is an input: every incoming event carries the clock
      reading [now] taken while its handler runs.
    - A socket id is an opaque connection identifier; the private room
      socket.io gives every socket under its own id is left out.
    - The socket.io room membership the broadcasts are routed by
      ([socket.join], [socket.leave], the automatic leave on disconnect) is
      the [adapter] component of the state; it is distinct from the [rooms]
      registry the program keeps itself. *)

From Stdlib Require Import ZArith String Ascii List Bool Lia.
From stdpp Require Import base gmap sets list strings.

Local Open Scope Z_scope.

(** ** JavaScript values and string primitives *)

Inductive jsval :=
| JUndefined
| JNull
| JBool (b : bool)
| JNum (n : Z)
| JStr (s : string).

Module Js.

(** WhiteSpace and LineTerminator code units below 256:
    TAB, LF, VT, FF, CR, SP, NBSP. *)
Definition isWhiteSpace (a : ascii) : bool :=
  match N_of_ascii a with
  | 9 | 10 | 11 | 12 | 13 | 32 | 160 => true
  | _ => false
  end%N.

Fixpoint trimStart (s : string) : string :=
  match s with
  | EmptyString => EmptyString
  | String a s' => if isWhiteSpace a then trimStart s' else s
  end.

Definition trimEnd (s : string) : string :=
  String.rev (trimStart (String.rev s)).

(** [String.prototype.trim] *)
Definition trim (s : string) : string := trimEnd (trimStart s).

(** [String.prototype.toLowerCase] on one code unit: A-Z and the Latin-1
    capitals U+00C0..U+00DE (U+00D7 apart) move up by 32. *)
Definition lowerChar (a : ascii) : ascii :=
  let n := N_of_ascii a in
  if ((65 <=? n) && (n <=? 90)
      || (192 <=? n) && (n <=? 222) && negb (n =? 215))%N
  then ascii_of_N (n + 32) else a.

Fixpoint toLowerCase (s : string) : string :=
  match s with
  | EmptyString => EmptyString
  | String a s' => String (lowerChar a) (toLowerCase s')
  end.

(** [s.length] *)
Definition length (s : string) : Z := Z.of_nat (String.length s).

End Js.

(** ** Constants *)

Definition MAX_USERNAME_LENGTH : Z := 20.
Definition MIN_USERNAME_LENGTH : Z := 2.
Definition MAX_ROOM_LENGTH : Z := 20.
Definition MIN_ROOM_LENGTH : Z := 2.
Definition MAX_MESSAGE_LENGTH : Z := 500.
Definition MESSAGE_RATE_LIMIT : Z := 10.
Definition RATE_LIMIT_WINDOW : Z := 5000.

(** ** Validation helpers *)

Definition validateUsername (username : jsval) : bool :=
  match username with
  | JStr s =>
      if bool_decide (s = EmptyString) then false
      else
        let trimmed := Js.trim s in
        (MIN_USERNAME_LENGTH <=? Js.length trimmed)
        && (Js.length trimmed <=? MAX_USERNAME_LENGTH)
  | _ => false
  end.

Definition validateRoom (room : jsval) : bool :=
  match room with
  | JStr s =>
      if bool_decide (s = EmptyString) then false
      else
        let trimmed := Js.trim s in
        (MIN_ROOM_LENGTH <=? Js.length trimmed)
        && (Js.length trimmed <=? MAX_ROOM_LENGTH)
  | _ => false
  end.

Definition validateMessage (message : jsval) : bool :=
  match message with
  | JStr s =>
      if bool_decide (s = EmptyString) then false
      else (0 <? Js.length (Js.trim s)) && (Js.length s <=? MAX_MESSAGE_LENGTH)
  | _ => false
  end.

(** ** Data model *)

Definition conn := nat.

Module Member.
Record t := Make { username : string; socketId : conn; joinedAt : Z }.
End Member.

Module UserData.
Record t := Make { room : string; username : string }.
End UserData.

Global Instance member_eq_dec : EqDecision Member.t.
Proof. solve_decision. Defined.

Global Instance userData_eq_dec : EqDecision UserData.t.
Proof. solve_decision. Defined.

Record server := Server {
  rooms : gmap string (list Member.t);
  userSockets : gmap conn UserData.t;
  messageLimiter : gmap conn (list Z);
  adapter : gmap string (gset conn)
}.

Definition init : server :=
  {| rooms := ∅; userSockets := ∅; messageLimiter := ∅; adapter := ∅ |}.

(** ** Rate limiter *)

Definition checkRateLimit (s : server) (socketId : conn) (now : Z)
  : bool * server :=
  let userLimit := default [] (messageLimiter s !! socketId) in
  let recentMessages :=
    filter (λ timestamp, now - timestamp < RATE_LIMIT_WINDOW) userLimit in
  if MESSAGE_RATE_LIMIT <=? Z.of_nat (length recentMessages) then (false, s)
  else
    (true,
     {| rooms := rooms s;
        userSockets := userSockets s;
        messageLimiter :=
          <[socketId := recentMessages ++ [now]]> (messageLimiter s);
        adapter := adapter s |}).

(** ** Room registry *)

Definition getRoomUsers (s : server) (room : string) : list Member.t :=
  default [] (rooms s !! room).

Definition userExistsInRoom (s : server) (room username : string) : bool :=
  existsb
    (λ u, bool_decide
            (Js.toLowerCase (Member.username u) = Js.toLowerCase username))
    (getRoomUsers s room).

Definition addUserToRoom (s : server) (room username : string)
    (socketId : conn) (now : Z) : server :=
  let rooms1 :=
    match rooms s !! room with
    | Some _ => rooms s
    | None => <[room := []]> (rooms s)
    end in
  let users := default [] (rooms1 !! room) in
  let users' :=
    if existsb (λ u, bool_decide (Member.socketId u = socketId)) users
    then users
    else users ++ [ {| Member.username := Js.trim username;
                       Member.socketId := socketId;
                       Member.joinedAt := now |} ] in
  {| rooms := <[room := users']> rooms1;
     userSockets :=
       <[socketId := {| UserData.room := Js.trim room;
                        UserData.username := Js.trim username |}]>
         (userSockets s);
     messageLimiter := messageLimiter s;
     adapter := adapter s |}.

Definition removeUserFromRoom (s : server) (socketId : conn)
  : server * option UserData.t :=
  match userSockets s !! socketId with
  | Some userData =>
      let room := UserData.room userData in
      let rooms' :=
        match rooms s !! room with
        | Some members =>
            let users := filter (λ u, Member.socketId u ≠ socketId) members in
            if Z.of_nat (length users) =? 0 then delete room (rooms s)
            else <[room := users]> (rooms s)
        | None => rooms s
        end in
      ({| rooms := rooms';
          userSockets := delete socketId (userSockets s);
          messageLimiter := delete socketId (messageLimiter s);
          adapter := adapter s |},
       Some userData)
  | None => (s, None)
  end.

(** ** Broadcaster (socket.io primitives) *)

(** [socket.join(room)] *)
Definition socket_join (s : server) (c : conn) (room : string) : server :=
  {| rooms := rooms s;
     userSockets := userSockets s;
     messageLimiter := messageLimiter s;
     adapter := <[room := {[c]} ∪ default ∅ (adapter s !! room)]> (adapter s) |}.

(** [socket.leave(room)]; the adapter drops a room that becomes empty. *)
Definition socket_leave (s : server) (c : conn) (room : string) : server :=
  let members := default ∅ (adapter s !! room) ∖ {[c]} in
  {| rooms := rooms s;
     userSockets := userSockets s;
     messageLimiter := messageLimiter s;
     adapter :=
       if decide (members = ∅) then delete room (adapter s)
       else <[room := members]> (adapter s) |}.

(** What socket.io does to a closing socket before its ["disconnect"]
    listeners run: it leaves every room. *)
Definition socket_leave_all (s : server) (c : conn) : server :=
  {| rooms := rooms s;
     userSockets := userSockets s;
     messageLimiter := messageLimiter s;
     adapter :=
       omap (λ members : gset conn,
               if decide (members ∖ {[c]} = ∅) then None
               else Some (members ∖ {[c]}))
            (adapter s) |}.

(** The sockets currently joined to a socket.io room. *)
Definition sockets_in (s : server) (room : string) : gset conn :=
  default ∅ (adapter s !! room).

(** Payload of a [receive_message] event. *)
Inductive chat_message :=
| SystemMessage (message : string) (timestamp : Z)
| UserMessage (room author message : string) (timestamp : Z) (id : conn * Z).

(** Events the server emits. *)
Inductive out_event :=
| error (msg : string)
| room_users (users : list string)
| user_list_update (users : list string)
| receive_message (m : chat_message)
| user_typing (username : string) (isTyping : jsval).

(** One call of an emit primitive. *)
Inductive emission :=
| socket_emit (c : conn) (e : out_event)               (* socket.emit(e) *)
| io_to_emit (room : string) (e : out_event)           (* io.to(room).emit(e) *)
| socket_to_emit (c : conn) (room : string) (e : out_event).
                                                       (* socket.to(room).emit(e) *)

Definition emitted (em : emission) : out_event :=
  match em with
  | socket_emit _ e | io_to_emit _ e | socket_to_emit _ _ e => e
  end.

(** The connections an emission reaches, given the room membership at the
    time of the call. *)
Definition recipients (s : server) (em : emission) : gset conn :=
  match em with
  | socket_emit c _ => {[c]}
  | io_to_emit room _ => sockets_in s room
  | socket_to_emit c room _ => sockets_in s room ∖ {[c]}
  end.

(** Error taxonomy of the specification, by the text of the [error] event. *)
Inductive error_class :=
| InvalidInput | UsernameTaken | Unauthorized | RateLimited | InternalFault.

Definition classify (msg : string) : option error_class :=
  if bool_decide (msg = "Invalid username. Use 2-20 characters.") then Some InvalidInput
  else if bool_decide (msg = "Invalid room ID. Use 2-20 characters.") then Some InvalidInput
  else if bool_decide (msg = "Invalid room") then Some InvalidInput
  else if bool_decide (msg = "Invalid username") then Some InvalidInput
  else if bool_decide (msg = "Invalid message") then Some InvalidInput
  else if bool_decide (msg = "Username already taken in this room.") then Some UsernameTaken
  else if bool_decide (msg = "Unauthorized message") then Some Unauthorized
  else if bool_decide (msg = "Too many messages. Please slow down.") then Some RateLimited
  else if bool_decide (msg = "Failed to join room") then Some InternalFault
  else if bool_decide (msg = "Failed to send message") then Some InternalFault
  else None.

(** ** Incoming payloads

    [None] as the payload of an event stands for [null] or [undefined],
    on which the destructuring at the head of a handler throws; a field
    that is absent reads [JUndefined]. *)

Module JoinData.
Record t := Make { room : jsval; username : jsval }.
End JoinData.

Module MessageData.
Record t := Make { room : jsval; author : jsval; message : jsval }.
End MessageData.

Module TypingData.
Record t := Make { room : jsval; username : jsval; isTyping : jsval }.
End TypingData.

(** ** Session handlers *)

Definition usernames (users : list Member.t) : list string :=
  map Member.username users.

(** [socket.on("join_room", ...)] *)
Definition on_join_room (s : server) (c : conn) (now : Z)
    (data : option JoinData.t) : server * list emission :=
  match data with
  | None => (s, [socket_emit c (error "Failed to join room")])
  | Some d =>
      if negb (validateUsername (JoinData.username d)) then
        (s, [socket_emit c (error "Invalid username. Use 2-20 characters.")])
      else if negb (validateRoom (JoinData.room d)) then
        (s, [socket_emit c (error "Invalid room ID. Use 2-20 characters.")])
      else
        match JoinData.room d, JoinData.username d with
        | JStr room, JStr username =>
            if userExistsInRoom s room username then
              (s, [socket_emit c (error "Username already taken in this room.")])
            else
              let s1 := socket_join s c room in
              let s2 := addUserToRoom s1 room username c now in
              let roomUsers := getRoomUsers s2 room in
              let joinMessage :=
                SystemMessage (username +:+ " joined the room") now in
              (s2,
               [socket_emit c (room_users (usernames roomUsers));
                io_to_emit room (user_list_update (usernames roomUsers));
                socket_to_emit c room (receive_message joinMessage)])
        | _, _ =>
            (* not reached: the validators accept strings only *)
            (s, [socket_emit c (error "Failed to join room")])
        end
  end.

(** [socket.on("send_message", ...)] *)
Definition on_send_message (s : server) (c : conn) (now : Z)
    (data : option MessageData.t) : server * list emission :=
  let (allowed, s1) := checkRateLimit s c now in
  if negb allowed then
    (s1, [socket_emit c (error "Too many messages. Please slow down.")])
  else
    match data with
    | None => (s1, [socket_emit c (error "Failed to send message")])
    | Some d =>
        if negb (validateRoom (MessageData.room d)) then
          (s1, [socket_emit c (error "Invalid room")])
        else if negb (validateUsername (MessageData.author d)) then
          (s1, [socket_emit c (error "Invalid username")])
        else if negb (validateMessage (MessageData.message d)) then
          (s1, [socket_emit c (error "Invalid message")])
        else
          match MessageData.room d, MessageData.author d, MessageData.message d with
          | JStr room, JStr author, JStr message =>
              match userSockets s1 !! c with
              | Some userData =>
                  if bool_decide (UserData.room userData ≠ room)
                     || bool_decide (UserData.username userData ≠ author)
                  then (s1, [socket_emit c (error "Unauthorized message")])
                  else
                    let messageData :=
                      UserMessage room author (Js.trim message) now (c, now) in
                    (s1, [io_to_emit room (receive_message messageData)])
              | None => (s1, [socket_emit c (error "Unauthorized message")])
              end
          | _, _, _ =>
              (* not reached: the validators accept strings only *)
              (s1, [socket_emit c (error "Failed to send message")])
          end
    end.

(** [socket.on("typing", ...)] *)
Definition on_typing (s : server) (c : conn)
    (data : option TypingData.t) : server * list emission :=
  match data with
  | None => (s, [])
  | Some d =>
      if negb (validateRoom (TypingData.room d))
         || negb (validateUsername (TypingData.username d))
      then (s, [])
      else
        match TypingData.room d, TypingData.username d with
        | JStr room, JStr username =>
            match userSockets s !! c with
            | Some userData =>
                if bool_decide (UserData.room userData ≠ room) then (s, [])
                else
                  (s, [socket_to_emit c room
                         (user_typing username (TypingData.isTyping d))])
            | None => (s, [])
            end
        | _, _ => (s, [])
        end
  end.

(** [socket.on("leave_room", ...)] *)
Definition on_leave_room (s : server) (c : conn) (now : Z)
  : server * list emission :=
  match userSockets s !! c with
  | Some userData =>
      let room := UserData.room userData in
      let username := UserData.username userData in
      let s1 := socket_leave s c room in
      let s2 := fst (removeUserFromRoom s1 c) in
      let leaveMessage := SystemMessage (username +:+ " left the room") now in
      let roomUsers := getRoomUsers s2 room in
      (s2,
       [io_to_emit room (receive_message leaveMessage);
        io_to_emit room (user_list_update (usernames roomUsers))])
  | None => (s, [])
  end.

(** [socket.on("disconnect", ...)] *)
Definition on_disconnect (s : server) (c : conn) (now : Z)
  : server * list emission :=
  let s0 := socket_leave_all s c in
  match removeUserFromRoom s0 c with
  | (s1, Some userData) =>
      let room := UserData.room userData in
      let username := UserData.username userData in
      let leaveMessage := SystemMessage (username +:+ " left the room") now in
      let roomUsers := getRoomUsers s1 room in
      (s1,
       io_to_emit room (receive_message leaveMessage)
       :: (if 0 <? Z.of_nat (length roomUsers)
           then [io_to_emit room (user_list_update (usernames roomUsers))]
           else []))
  | (s1, None) => (s1, [])
  end.

(** ** Events and runs *)

Inductive event :=
| join_room (c : conn) (now : Z) (data : option JoinData.t)
| send_message (c : conn) (now : Z) (data : option MessageData.t)
| typing (c : conn) (now : Z) (data : option TypingData.t)
| leave_room (c : conn) (now : Z)
| disconnect (c : conn) (now : Z).

Definition handle (s : server) (e : event) : server * list emission :=
  match e with
  | join_room c now data => on_join_room s c now data
  | send_message c now data => on_send_message s c now data
  | typing c _ data => on_typing s c data
  | leave_room c now => on_leave_room s c now
  | disconnect c now => on_disconnect s c now
  end.

Definition step (s : server) (e : event) : server := fst (handle s e).

(** The state after a sequence of events. *)
Definition run (s : server) (tr : list event) : server := fold_left step tr s.

(** ** Status queries *)

(** [GET /api/rooms]: one entry per key of [rooms]. *)
Definition api_rooms (s : server) : list (string * nat * list string) :=
  (λ '(room, users), (room, length users, usernames users))
    <$> map_to_list (rooms s).

Definition listed (s : server) (room : string) : Prop :=
  ∃ n us, (room, n, us) ∈ api_rooms s.

(** ** Vocabulary of the specification *)

Global Instance jsval_eq_dec : EqDecision jsval.
Proof. solve_decision. Defined.

(** Payloads whose fields are strings. *)
Definition join_payload (room username : string) : option JoinData.t :=
  Some (JoinData.Make (JStr room) (JStr username)).

Definition message_payload (room author message : string)
  : option MessageData.t :=
  Some (MessageData.Make (JStr room) (JStr author) (JStr message)).

(** A value passes the length bounds of the Validator: it is a string whose
    trimmed length lies in [2,20]. *)
Definition within_bounds (v : jsval) : Prop :=
  match v with
  | JStr s => 2 ≤ Js.length (Js.trim s) ≤ 20
  | _ => False
  end.

(** Shape validation of a [send_message] payload. *)
Definition shape_ok (d : MessageData.t) : bool :=
  validateRoom (MessageData.room d)
  && validateUsername (MessageData.author d)
  && validateMessage (MessageData.message d).

(** The connection's SessionBinding is exactly [(room, author)]. *)
Definition bound_as (s : server) (c : conn) (room author : jsval) : bool :=
  match userSockets s !! c with
  | Some userData =>
      bool_decide (JStr (UserData.room userData) = room)
      && bool_decide (JStr (UserData.username userData) = author)
  | None => false
  end.

(** The reply to a [send_message] is an Unauthorized-class [error] to the
    sender. *)
Definition replies_unauthorized (s : server) (c : conn) (now : Z)
    (d : MessageData.t) : Prop :=
  ∃ msg, socket_emit c (error msg) ∈ snd (on_send_message s c now (Some d))
         ∧ classify msg = Some Unauthorized.

(** *** Registry and membership *)

(** [c] appears in [room] of the registry under [username]. *)
Definition is_member (s : server) (c : conn) (room username : string) : Prop :=
  ∃ m, m ∈ getRoomUsers s room
       ∧ Member.socketId m = c ∧ Member.username m = username.

(** Bindings and Member entries correspond: a connection is bound to
    [(room, username)] exactly when it is a Member of [room] as [username];
    so a bound connection is in no other room and under no other name, and
    an unbound one is in no room. *)
Definition session_matches (s : server) : Prop :=
  ∀ c room username,
    userSockets s !! c = Some (UserData.Make room username)
    ↔ is_member s c room username.

(** An event a client that follows the protocol sends: [join_room] only
    while it holds no binding, with room and username already trimmed.
    The client shipped with the server does both: it trims the two fields
    and offers the join form only while it is not in a room. *)
Definition orderly (s : server) (e : event) : bool :=
  match e with
  | join_room c _ (Some d) =>
      match JoinData.room d, JoinData.username d with
      | JStr room, JStr username =>
          bool_decide (userSockets s !! c = None)
          && bool_decide (Js.trim room = room)
          && bool_decide (Js.trim username = username)
      | _, _ => true
      end
  | _ => true
  end.

Fixpoint orderly_run (s : server) (tr : list event) : bool :=
  match tr with
  | [] => true
  | e :: tr' => orderly s e && orderly_run (step s e) tr'
  end.

(** Usernames of a room are pairwise distinct without regard to case. *)
Definition distinct_names (s : server) (room : string) : Prop :=
  NoDup (map Js.toLowerCase (usernames (getRoomUsers s room))).

(** The Member entry [addUserToRoom] pushes. *)
Definition new_member (username : string) (c : conn) (now : Z) : Member.t :=
  {| Member.username := Js.trim username;
     Member.socketId := c;
     Member.joinedAt := now |}.

(** [c] already has an entry in a member list. *)
Definition present (c : conn) (users : list Member.t) : bool :=
  existsb (λ u, bool_decide (Member.socketId u = c)) users.


(** Every member of [room] in the registry is joined to the socket.io room
    of that name. *)
Definition attached (s : server) (room : string) : Prop :=
  ∀ m, m ∈ getRoomUsers s room → Member.socketId m ∈ sockets_in s room.

(** *** Rate window *)

(** The timestamps of a connection that a check at [now] keeps. *)
Definition recent (s : server) (c : conn) (now : Z) : list Z :=
  filter (λ timestamp, now - timestamp < RATE_LIMIT_WINDOW)
         (default [] (messageLimiter s !! c)).

(** The rate window recorded for a connection. *)
Definition stored (s : server) (c : conn) : list Z :=
  default [] (messageLimiter s !! c).





(** ** Sample connections, traces and states *)

Definition connA : conn := 1%nat.
Definition connB : conn := 2%nat.


(** Ten messages of one connection, one millisecond apart. *)
Definition ten_sends : list event :=
  map (λ n, send_message connA (Z.of_nat n)
              (message_payload "lobby" "alice" "hi"))
      (seq 0 10).

(** A bound connection joins a second room. *)
Definition rejoin_trace : list event :=
  [join_room connA 0 (join_payload "lobby" "alice");
   join_room connA 1 (join_payload "games" "alice")].

(** Two clients that follow the protocol. *)
Definition orderly_trace : list event :=
  [join_room connA 0 (join_payload "lobby" "alice");
   join_room connB 1 (join_payload "lobby" "bob");
   send_message connB 2 (message_payload "lobby" "bob" "hi");
   leave_room connA 3;
   join_room connA 4 (join_payload "games" "alice");
   disconnect connB 5].

(** The same name requested with a leading space. *)
Definition duplicate_name_trace : list event :=
  [join_room connA 0 (join_payload "lobby" "alice");
   join_room connB 1 (join_payload "lobby" " alice")].

(** A room id with surrounding spaces, joined and left. *)
Definition padded_room_trace : list event :=
  [join_room connA 0 (join_payload " lobby " "alice");
   leave_room connA 1].

(** One member alone in a room. *)
Definition one_member : server :=
  run init [join_room connA 0 (join_payload "lobby" "alice")].

(** Two members of one room. *)
Definition two_members : server :=
  run init [join_room connA 0 (join_payload "lobby" "alice");
            join_room connB 1 (join_payload "lobby" "bob")].

(** A connection that never joins sends one message and disconnects. *)
Definition unbound_sender_trace : list event :=
  [send_message connA 0 (message_payload "lobby" "alice" "hi");
   disconnect connA 1].

(** A member sends ten messages, leaves, joins again and sends once more,
    all within 14 ms. *)
Definition leave_and_return_trace : list event :=
  join_room connA 0 (join_payload "lobby" "alice")
  :: map (λ n, send_message connA (Z.of_nat n)
                 (message_payload "lobby" "alice" "hi"))
         (seq 1 10)
  ++ [leave_room connA 11;
      join_room connA 12 (join_payload "lobby" "alice")].

(** ** Vocabulary for the further properties *)

(** A string that does not start with white space. *)
Definition head_ok (s : string) : Prop :=
  match s with
  | EmptyString => True
  | String a _ => Js.isWhiteSpace a = false
  end.

(** Every room of the registry has a member. *)
Definition rooms_inhabited (s : server) : Prop :=
  ∀ room users, rooms s !! room = Some users → users ≠ [].

(** No connection has two entries in one room. *)
Definition one_entry_per_connection (s : server) : Prop :=
  ∀ room, NoDup (map Member.socketId (getRoomUsers s room)).

(** No rate window holds more than [MESSAGE_RATE_LIMIT] timestamps. *)
Definition windows_bounded (s : server) : Prop :=
  ∀ c, Z.of_nat (length (stored s c)) ≤ MESSAGE_RATE_LIMIT.

(** A stored name: already trimmed, of length 2 to 20. *)
Definition clean (name : string) : Prop :=
  Js.trim name = name ∧ 2 ≤ Js.length name ≤ 20.

(** Every username and room id the registries hold is clean. *)
Definition names_clean (s : server) : Prop :=
  (∀ room m, m ∈ getRoomUsers s room → clean (Member.username m))
  ∧ (∀ c userData,
       userSockets s !! c = Some userData →
       clean (UserData.room userData) ∧ clean (UserData.username userData)).

(** A [join_room] whose username carries no surrounding white space. *)
Definition trimmed_join (e : event) : bool :=
  match e with
  | join_room _ _ (Some d) =>
      match JoinData.username d with
      | JStr username => bool_decide (Js.trim username = username)
      | _ => true
      end
  | _ => true
  end.

(** The connection an event comes from. *)
Definition conn_of (e : event) : conn :=
  match e with
  | join_room c _ _ | send_message c _ _ | typing c _ _
  | leave_room c _ | disconnect c _ => c
  end.

(** The Member entries of one connection in a member list. *)
Definition entries_of (c : conn) (users : list Member.t) : list Member.t :=
  filter (λ u, Member.socketId u = c) users.

(** [GET /api/health] *)
Record health := Health {
  status : string;
  timestamp : Z;
  activeRooms : nat;
  activeUsers : nat
}.

Definition api_health (s : server) (now : Z) : health :=
  {| status := "healthy";
     timestamp := now;
     activeRooms := size (rooms s);
     activeUsers := size (userSockets s) |}.

(** The sum of the [userCount] fields of [/api/rooms]. *)
Definition listed_members (s : server) : nat :=
  sum_list ((λ entry : string * nat * list string, entry.1.2) <$> api_rooms s).

(** The number of Member entries of a room map. *)
Definition members_total (m : gmap string (list Member.t)) : nat :=
  sum_list ((λ kv : string * list Member.t, length kv.2) <$> map_to_list m).

(** ** The client (the React component's event emitters)

    [username], [room] and [message] are the strings of the component's
    state, as typed. Each function is given by what it decides and emits;
    the component's display state is not part of the model. *)

Module Client.

(** A call of [socket.emit]. The [timestamp] field the client adds to a
    [send_message] payload is not read by the server and is left out. *)
Inductive emit :=
| emit_join_room (d : JoinData.t)
| emit_send_message (d : MessageData.t)
| emit_typing (d : TypingData.t)
| emit_leave_room.

(** [validateInputs]: the error it sets, [None] when it returns true. *)
Definition validateInputs (username room : string) : option string :=
  let trimmedUsername := Js.trim username in
  let trimmedRoom := Js.trim room in
  if bool_decide (trimmedUsername = EmptyString) then
    Some "Username is required"
  else if (Js.length trimmedUsername <? 2) || (20 <? Js.length trimmedUsername)
  then Some "Username must be between 2-20 characters"
  else if bool_decide (trimmedRoom = EmptyString) then
    Some "Room ID is required"
  else if (Js.length trimmedRoom <? 2) || (20 <? Js.length trimmedRoom)
  then Some "Room ID must be between 2-20 characters"
  else None.

(** [joinRoom] *)
Definition joinRoom (username room : string) : list emit :=
  match validateInputs username room with
  | Some _ => []
  | None =>
      [emit_join_room
         {| JoinData.room := JStr (Js.trim room);
            JoinData.username := JStr (Js.trim username) |}]
  end.

(** [sendMessage] *)
Definition sendMessage (username room message : string) : list emit :=
  if bool_decide (Js.trim message = EmptyString) then []
  else
    [emit_send_message
       {| MessageData.room := JStr room;
          MessageData.author := JStr username;
          MessageData.message := JStr (Js.trim message) |};
     emit_typing
       {| TypingData.room := JStr room;
          TypingData.username := JStr username;
          TypingData.isTyping := JBool false |}].

(** [leaveRoom] *)
Definition leaveRoom : list emit := [emit_leave_room].

(** The event the server sees for an emit of connection [c] at [now]. *)
Definition arrives (c : conn) (now : Z) (e : emit) : event :=
  match e with
  | emit_join_room d => join_room c now (Some d)
  | emit_send_message d => send_message c now (Some d)
  | emit_typing d => typing c now (Some d)
  | emit_leave_room => leave_room c now
  end.

End Client.

(** * Properties *)

(** ** Validator *)

Lemma validateUsername_string v : validateUsername v = true → ∃ s, v = JStr s.
Proof. destruct v; try discriminate. eauto. Qed.

Lemma validateRoom_string v : validateRoom v = true → ∃ s, v = JStr s.
Proof. destruct v; try discriminate. eauto. Qed.

Lemma validateMessage_string v : validateMessage v = true → ∃ s, v = JStr s.
Proof. destruct v; try discriminate. eauto. Qed.

Lemma trim_empty : Js.trim EmptyString = EmptyString.
Proof. reflexivity. Qed.

Lemma validateUsername_bounds v : validateUsername v = true ↔ within_bounds v.
Proof.
  destruct v as [| | | |s]; simpl; try (split; [discriminate | tauto]).
  unfold MIN_USERNAME_LENGTH, MAX_USERNAME_LENGTH.
  case_bool_decide as Hs.
  - subst s. rewrite trim_empty. unfold Js.length. simpl.
    split; [discriminate | lia].
  - rewrite andb_true_iff, !Z.leb_le. tauto.
Qed.

Lemma validateRoom_bounds v : validateRoom v = true ↔ within_bounds v.
Proof.
  destruct v as [| | | |s]; simpl; try (split; [discriminate | tauto]).
  unfold MIN_ROOM_LENGTH, MAX_ROOM_LENGTH.
  case_bool_decide as Hs.
  - subst s. rewrite trim_empty. unfold Js.length. simpl.
    split; [discriminate | lia].
  - rewrite andb_true_iff, !Z.leb_le. tauto.
Qed.

(** ** join_room with invalid input *)

(** C6. A [join_room] whose username or room fails the length bounds
    (not a string of trimmed length in [2,20]) leaves the whole state as it
    was, room and binding registries included, and emits one [error] event
    of the InvalidInput class, to the requesting socket only. *)
Theorem join_room_invalid_input
    (s : server) (c : conn) (now : Z) (d : JoinData.t) :
  ¬ within_bounds (JoinData.username d) ∨ ¬ within_bounds (JoinData.room d) →
  ∃ msg,
    on_join_room s c now (Some d) = (s, [socket_emit c (error msg)])
    ∧ classify msg = Some InvalidInput
    ∧ recipients s (socket_emit c (error msg)) = {[c]}.
Proof.
  intros Hbad. unfold on_join_room.
  destruct (validateUsername (JoinData.username d)) eqn:Hu; simpl.
  - destruct (validateRoom (JoinData.room d)) eqn:Hr; simpl.
    + apply validateUsername_bounds in Hu. apply validateRoom_bounds in Hr.
      tauto.
    + eexists. split; [reflexivity|]. split; reflexivity.
  - eexists. split; [reflexivity|]. split; reflexivity.
Qed.

Lemma join_room_invalid_input_witness :
  ∃ msg,
    on_join_room init 1%nat 0 (Some (JoinData.Make (JStr "lobby") (JStr "a")))
    = (init, [socket_emit 1%nat (error msg)])
    ∧ classify msg = Some InvalidInput
    ∧ recipients init (socket_emit 1%nat (error msg)) = {[1%nat]}.
Proof.
  apply (join_room_invalid_input init 1%nat 0
           (JoinData.Make (JStr "lobby") (JStr "a"))).
  left. intros [H _]. apply H. reflexivity.
Defined.

(** ** Rate limiter and send_message *)

Lemma checkRateLimit_frame s c now :
  rooms (snd (checkRateLimit s c now)) = rooms s
  ∧ userSockets (snd (checkRateLimit s c now)) = userSockets s
  ∧ adapter (snd (checkRateLimit s c now)) = adapter s.
Proof. unfold checkRateLimit. case_match; simpl; auto. Qed.

Lemma checkRateLimit_verdict s c now :
  fst (checkRateLimit s c now)
  = negb (MESSAGE_RATE_LIMIT <=? Z.of_nat (length (recent s c now))).
Proof. unfold checkRateLimit, recent. case_match; reflexivity. Qed.

Lemma checkRateLimit_rejected s c now :
  fst (checkRateLimit s c now) = false → snd (checkRateLimit s c now) = s.
Proof. unfold checkRateLimit. case_match; simpl; [auto | discriminate]. Qed.

Lemma checkRateLimit_admitted s c now :
  fst (checkRateLimit s c now) = true →
  messageLimiter (snd (checkRateLimit s c now))
  = <[c := recent s c now ++ [now]]> (messageLimiter s).
Proof. unfold checkRateLimit, recent. case_match; simpl; [discriminate | auto]. Qed.

Lemma on_send_message_state s c now data :
  fst (on_send_message s c now data) = snd (checkRateLimit s c now).
Proof.
  unfold on_send_message. destruct (checkRateLimit s c now) as [[] s1]; simpl;
    repeat case_match; reflexivity.
Qed.

Lemma on_send_message_rate_limited s c now data :
  fst (checkRateLimit s c now) = false →
  on_send_message s c now data
  = (s, [socket_emit c (error "Too many messages. Please slow down.")]).
Proof.
  intros H. pose proof (checkRateLimit_rejected _ _ _ H) as Hs.
  unfold on_send_message. destruct (checkRateLimit s c now) as [ok s1].
  simpl in *. subst. reflexivity.
Qed.

Lemma shape_ok_strings d :
  shape_ok d = true →
  ∃ room author message,
    d = MessageData.Make (JStr room) (JStr author) (JStr message).
Proof.
  unfold shape_ok. rewrite !andb_true_iff. intros [[Hr Ha] Hm].
  destruct d as [r a m]; simpl in *.
  apply validateRoom_string in Hr as [? ->].
  apply validateUsername_string in Ha as [? ->].
  apply validateMessage_string in Hm as [? ->]. eauto.
Qed.

Lemma on_send_message_reply s c now d :
  fst (checkRateLimit s c now) = true →
  snd (on_send_message s c now (Some d))
  = if negb (validateRoom (MessageData.room d)) then
      [socket_emit c (error "Invalid room")]
    else if negb (validateUsername (MessageData.author d)) then
      [socket_emit c (error "Invalid username")]
    else if negb (validateMessage (MessageData.message d)) then
      [socket_emit c (error "Invalid message")]
    else if bound_as s c (MessageData.room d) (MessageData.author d) then
      match d with
      | MessageData.Make (JStr room) (JStr author) (JStr message) =>
          [io_to_emit room
             (receive_message
                (UserMessage room author (Js.trim message) now (c, now)))]
      | _ => []
      end
    else [socket_emit c (error "Unauthorized message")].
Proof.
  intros Hok. unfold on_send_message, bound_as.
  pose proof (checkRateLimit_frame s c now) as (_ & Hus & _).
  destruct (checkRateLimit s c now) as [ok s1]; simpl in *. subst ok. simpl.
  rewrite Hus.
  destruct (validateRoom (MessageData.room d)) eqn:Hr; simpl; [|done].
  destruct (validateUsername (MessageData.author d)) eqn:Ha; simpl; [|done].
  destruct (validateMessage (MessageData.message d)) eqn:Hm; simpl; [|done].
  destruct d as [r a m]; simpl in *.
  apply validateRoom_string in Hr as [room ->].
  apply validateUsername_string in Ha as [author ->].
  apply validateMessage_string in Hm as [message ->].
  destruct (userSockets s !! c) as [ud|]; [|done].
  repeat case_bool_decide; simpl; try done; congruence.
Qed.

(** C10. A [send_message] that the rate limiter admits and that is then
    rejected (invalid room, author or message shape, or a binding that is
    not [(room, author)]) leaves the room map and the binding map as they
    were, and still appends the attempt's timestamp to the sender's rate
    window; for a connection without rate state, and so also for one that
    never joined a room, the window is created. The reply is one [error]
    event of the InvalidInput or Unauthorized class. *)
Theorem send_message_rejection_spends_budget
    (s : server) (c : conn) (now : Z) (d : MessageData.t) :
  fst (checkRateLimit s c now) = true →
  shape_ok d = false
  ∨ bound_as s c (MessageData.room d) (MessageData.author d) = false →
  let s' := fst (on_send_message s c now (Some d)) in
  rooms s' = rooms s
  ∧ userSockets s' = userSockets s
  ∧ messageLimiter s' !! c = Some (recent s c now ++ [now])
  ∧ (messageLimiter s !! c = None → messageLimiter s' !! c = Some [now])
  ∧ ∃ msg,
      snd (on_send_message s c now (Some d)) = [socket_emit c (error msg)]
      ∧ (classify msg = Some InvalidInput ∨ classify msg = Some Unauthorized).
Proof.
  intros Hok Hrej s'. subst s'. rewrite on_send_message_state.
  destruct (checkRateLimit_frame s c now) as (Hr & Hu & _).
  pose proof (checkRateLimit_admitted _ _ _ Hok) as Hl.
  split; [done|]. split; [done|]. rewrite Hl, lookup_insert_eq.
  split; [done|]. split.
  { intros Hnone. unfold recent. rewrite Hnone. done. }
  rewrite on_send_message_reply by done.
  unfold shape_ok in Hrej.
  destruct (validateRoom (MessageData.room d)); simpl in *;
    [|eexists; split; [done | left; done]].
  destruct (validateUsername (MessageData.author d)); simpl in *;
    [|eexists; split; [done | left; done]].
  destruct (validateMessage (MessageData.message d)); simpl in *;
    [|eexists; split; [done | left; done]].
  destruct Hrej as [? | ->]; [done|].
  eexists; split; [done | right; done].
Qed.

Lemma send_message_rejection_spends_budget_witness :
  let s' := fst (on_send_message init connA 7
                   (message_payload "lobby" "alice" "hi")) in
  rooms s' = rooms init
  ∧ userSockets s' = userSockets init
  ∧ messageLimiter s' !! connA = Some (recent init connA 7 ++ [7])
  ∧ (messageLimiter init !! connA = None → messageLimiter s' !! connA = Some [7])
  ∧ ∃ msg,
      snd (on_send_message init connA 7 (message_payload "lobby" "alice" "hi"))
      = [socket_emit connA (error msg)]
      ∧ (classify msg = Some InvalidInput ∨ classify msg = Some Unauthorized).
Proof.
  apply (send_message_rejection_spends_budget init connA 7
           (MessageData.Make (JStr "lobby") (JStr "alice") (JStr "hi"))).
  - reflexivity.
  - right. reflexivity.
Defined.

(** ** send_message against the binding *)

(** C4 does not hold as stated: the eleventh attempt inside the
    window of a connection without a binding is answered by the rate
    limiter, not by an Unauthorized error. *)
Lemma send_message_mismatch_rate_limited :
  let d := MessageData.Make (JStr "lobby") (JStr "alice") (JStr "hi") in
  shape_ok d = true
  ∧ bound_as (run init ten_sends) connA (MessageData.room d) (MessageData.author d)
    = false
  ∧ ¬ replies_unauthorized (run init ten_sends) connA 10 d.
Proof.
  intros d. split; [reflexivity|]. split; [vm_compute; reflexivity|].
  intros (msg & Hin & Hclass).
  assert (Hout : snd (on_send_message (run init ten_sends) connA 10 (Some d))
                 = [socket_emit connA
                      (error "Too many messages. Please slow down.")])
    by (vm_compute; reflexivity).
  rewrite Hout in Hin. apply list_elem_of_singleton in Hin.
  injection Hin as ->. vm_compute in Hclass. discriminate.
Qed.

(** C4 (amended). A [send_message] whose payload passes shape validation
    and whose [(room, author)] is not the sender's binding (wrong room,
    other author, or no binding) is answered by exactly one [error] event,
    sent to the sender only: "Unauthorized message" when the rate limiter
    admits the attempt, the rate-limit error when it does not. No
    [receive_message] is emitted, and rooms, bindings and room membership
    stay as they were. *)
Theorem send_message_binding_mismatch
    (s : server) (c : conn) (now : Z) (d : MessageData.t) :
  shape_ok d = true →
  bound_as s c (MessageData.room d) (MessageData.author d) = false →
  let s' := fst (on_send_message s c now (Some d)) in
  let out := snd (on_send_message s c now (Some d)) in
  out = [socket_emit c
           (error (if fst (checkRateLimit s c now)
                   then "Unauthorized message"
                   else "Too many messages. Please slow down."))]
  ∧ (∀ em, em ∈ out →
       recipients s' em = {[c]} ∧ ∀ m, emitted em ≠ receive_message m)
  ∧ rooms s' = rooms s ∧ userSockets s' = userSockets s ∧ adapter s' = adapter s.
Proof.
  intros Hshape Hbound s' out.
  assert (Hout : out
                 = [socket_emit c
                      (error (if fst (checkRateLimit s c now)
                              then "Unauthorized message"
                              else "Too many messages. Please slow down."))]).
  { subst out. destruct (fst (checkRateLimit s c now)) eqn:Hok.
    - rewrite on_send_message_reply by done.
      unfold shape_ok in Hshape. rewrite !andb_true_iff in Hshape.
      destruct Hshape as [[-> ->] ->]. simpl. by rewrite Hbound.
    - by rewrite on_send_message_rate_limited. }
  split; [done|]. split.
  - intros em. rewrite Hout. intros ->%list_elem_of_singleton. simpl.
    split; [done | discriminate].
  - subst s'. rewrite on_send_message_state. apply checkRateLimit_frame.
Qed.

Lemma send_message_binding_mismatch_witness :
  snd (on_send_message init connA 3 (message_payload "lobby" "alice" "hi"))
  = [socket_emit connA (error "Unauthorized message")].
Proof.
  apply (send_message_binding_mismatch init connA 3
           (MessageData.Make (JStr "lobby") (JStr "alice") (JStr "hi"))
           eq_refl eq_refl).
Defined.

(** ** Registry operations, room by room *)

Lemma getRoomUsers_addUserToRoom s room username c now r :
  getRoomUsers (addUserToRoom s room username c now) r
  = if decide (r = room) then
      if present c (getRoomUsers s room) then getRoomUsers s room
      else getRoomUsers s room ++ [new_member username c now]
    else getRoomUsers s r.
Proof.
  unfold getRoomUsers, addUserToRoom, present, new_member. simpl.
  destruct (decide (r = room)) as [->|Hne].
  - rewrite lookup_insert_eq. simpl.
    destruct (rooms s !! room) as [us|] eqn:Hr; simpl.
    + rewrite Hr. done.
    + rewrite lookup_insert_eq. done.
  - rewrite lookup_insert_ne by done.
    destruct (rooms s !! room); [done|]. by rewrite lookup_insert_ne.
Qed.

Lemma userSockets_addUserToRoom s room username c now :
  userSockets (addUserToRoom s room username c now)
  = <[c := UserData.Make (Js.trim room) (Js.trim username)]> (userSockets s).
Proof. reflexivity. Qed.

Lemma getRoomUsers_removeUserFromRoom s c userData r :
  userSockets s !! c = Some userData →
  getRoomUsers (fst (removeUserFromRoom s c)) r
  = if decide (r = UserData.room userData) then
      filter (λ u, Member.socketId u ≠ c) (getRoomUsers s r)
    else getRoomUsers s r.
Proof.
  intros Hb. unfold getRoomUsers, removeUserFromRoom. rewrite Hb. simpl.
  destruct (decide (r = UserData.room userData)) as [->|Hne].
  - destruct (rooms s !! UserData.room userData) as [us|] eqn:Hr; simpl.
    + destruct (filter (λ u, Member.socketId u ≠ c) us) as [|m l] eqn:Hf; simpl.
      * by rewrite lookup_delete_eq.
      * replace (Z.of_nat (S (length l)) =? 0) with false
          by (symmetry; apply Z.eqb_neq; lia).
        by rewrite lookup_insert_eq.
    + rewrite Hr. done.
  - destruct (rooms s !! UserData.room userData) as [us|] eqn:Hr; simpl; [|done].
    case_match; [by rewrite lookup_delete_ne | by rewrite lookup_insert_ne].
Qed.

Lemma removeUserFromRoom_unbound s c :
  userSockets s !! c = None → removeUserFromRoom s c = (s, None).
Proof. intros H. unfold removeUserFromRoom. by rewrite H. Qed.

Lemma sockets_in_socket_join s c room r :
  sockets_in (socket_join s c room) r
  = if decide (r = room) then {[c]} ∪ sockets_in s room else sockets_in s r.
Proof.
  unfold sockets_in, socket_join. simpl. case_decide as H.
  - subst. by rewrite lookup_insert_eq.
  - by rewrite lookup_insert_ne.
Qed.

Lemma sockets_in_addUserToRoom s room username c now r :
  sockets_in (addUserToRoom s room username c now) r = sockets_in s r.
Proof. reflexivity. Qed.

Lemma elem_of_present c users :
  present c users = true ↔ ∃ m, m ∈ users ∧ Member.socketId m = c.
Proof.
  unfold present. rewrite existsb_exists. split.
  - intros (m & Hin & Hc). apply bool_decide_eq_true in Hc.
    exists m. split; [by apply list_elem_of_In | done].
  - intros (m & Hin & Hc). exists m. split; [by apply list_elem_of_In|].
    by apply bool_decide_eq_true.
Qed.

(** ** Successful join_room *)




(** ** The sliding window *)


Lemma stored_checkRateLimit s c now :
  stored (snd (checkRateLimit s c now)) c
  = if fst (checkRateLimit s c now) then recent s c now ++ [now]
    else stored s c.
Proof.
  destruct (fst (checkRateLimit s c now)) eqn:Hok.
  - unfold stored. rewrite checkRateLimit_admitted by done.
    by rewrite lookup_insert_eq.
  - by rewrite checkRateLimit_rejected.
Qed.

Lemma stored_checkRateLimit_other s c c' now :
  c ≠ c' → stored (snd (checkRateLimit s c now)) c' = stored s c'.
Proof.
  intros Hne. destruct (fst (checkRateLimit s c now)) eqn:Hok.
  - unfold stored. rewrite checkRateLimit_admitted by done.
    by rewrite lookup_insert_ne.
  - by rewrite checkRateLimit_rejected.
Qed.














(** ** Bindings and Member entries *)

Lemma session_matches_ext s s' :
  rooms s' = rooms s → userSockets s' = userSockets s →
  session_matches s → session_matches s'.
Proof.
  intros Hr Hu Hinv c room username.
  unfold is_member, getRoomUsers. rewrite Hr, Hu. apply Hinv.
Qed.

Lemma session_matches_init : session_matches init.
Proof.
  intros c room username. unfold is_member, getRoomUsers. simpl.
  rewrite !lookup_empty. simpl. split; [discriminate|].
  intros (m & Hm & _). by apply elem_of_nil in Hm.
Qed.

Lemma userSockets_removeUserFromRoom s c :
  userSockets (fst (removeUserFromRoom s c)) = delete c (userSockets s).
Proof.
  unfold removeUserFromRoom.
  destruct (userSockets s !! c) eqn:Hb; simpl; [done|].
  symmetry. by apply delete_id.
Qed.

Lemma session_matches_removeUserFromRoom s c :
  session_matches s → session_matches (fst (removeUserFromRoom s c)).
Proof.
  intros Hinv. destruct (userSockets s !! c) as [userData|] eqn:Hb.
  - intros c' room username. rewrite userSockets_removeUserFromRoom.
    unfold is_member.
    rewrite (getRoomUsers_removeUserFromRoom s c userData) by done.
    destruct (decide (c' = c)) as [->|Hne].
    + rewrite lookup_delete_eq. split; [discriminate|].
      intros (m & Hm & Hc & Hname).
      assert (Hmem : is_member s c room username).
      { exists m. case_decide; [|done].
        apply list_elem_of_filter in Hm. tauto. }
      apply Hinv in Hmem. rewrite Hb in Hmem. injection Hmem as ->.
      simpl in Hm. rewrite decide_True in Hm by done.
      apply list_elem_of_filter in Hm. tauto.
    + rewrite lookup_delete_ne by done. rewrite (Hinv c' room username).
      unfold is_member.
      split; intros (m & Hm & Hc & Hname); exists m; (split; [|done]).
      * case_decide; [|done]. apply list_elem_of_filter. split; [|done].
        congruence.
      * case_decide; [|done]. apply list_elem_of_filter in Hm. tauto.
  - by rewrite removeUserFromRoom_unbound.
Qed.

Lemma session_matches_join s c now room username :
  session_matches s →
  userSockets s !! c = None →
  Js.trim room = room → Js.trim username = username →
  session_matches (addUserToRoom (socket_join s c room) room username c now).
Proof.
  intros Hinv Hfree Hroom Hname.
  assert (Habsent : present c (getRoomUsers s room) = false).
  { apply not_true_is_false. intros (m & Hm & Hc)%elem_of_present.
    assert (Hmem : is_member s c room (Member.username m)) by (by exists m).
    apply Hinv in Hmem. congruence. }
  intros c' r u. rewrite userSockets_addUserToRoom. unfold is_member.
  rewrite getRoomUsers_addUserToRoom.
  change (getRoomUsers (socket_join s c room)) with (getRoomUsers s).
  change (userSockets (socket_join s c room)) with (userSockets s).
  rewrite Habsent, Hroom, Hname.
  destruct (decide (c' = c)) as [->|Hne].
  - rewrite lookup_insert_eq. split.
    + intros [= <- <-]. exists (new_member username c now).
      rewrite decide_True by done. unfold new_member. simpl.
      split; [|done]. apply elem_of_app. right. apply list_elem_of_here.
    + intros (m & Hm & Hc & Hn).
      assert (Hcases : is_member s c r u
                       ∨ (r = room ∧ m = new_member username c now)).
      { case_decide as Hr.
        - apply elem_of_app in Hm as [Hm | Hm%list_elem_of_singleton].
          + left. exists m. by subst r.
          + by right.
        - left. by exists m. }
      destruct Hcases as [Hmem | [-> ->]].
      * apply Hinv in Hmem. congruence.
      * unfold new_member in Hn. simpl in Hn. congruence.
  - rewrite lookup_insert_ne by done. rewrite (Hinv c' r u). unfold is_member.
    split; intros (m & Hm & Hc & Hn); exists m; (split; [|done]).
    + case_decide as Hr; [|done]. subst r. apply elem_of_app. by left.
    + case_decide as Hr; [|done]. subst r.
      apply elem_of_app in Hm as [Hm | Hm%list_elem_of_singleton]; [done|].
      subst m. simpl in Hc. congruence.
Qed.

Lemma on_join_room_state s c now d :
  fst (on_join_room s c now d) = s
  ∨ ∃ room username,
      d = join_payload room username
      ∧ fst (on_join_room s c now d)
        = addUserToRoom (socket_join s c room) room username c now.
Proof.
  unfold on_join_room. destruct d as [[r u]|]; [|by left]. simpl.
  destruct (validateUsername u); simpl; [|by left].
  destruct (validateRoom r); simpl; [|by left].
  destruct r as [| | | |room]; try (by left).
  destruct u as [| | | |username]; try (by left).
  destruct (userExistsInRoom s room username); [by left|].
  right. by exists room, username.
Qed.

Lemma on_typing_state s c d : fst (on_typing s c d) = s.
Proof. unfold on_typing. repeat case_match; reflexivity. Qed.

Lemma session_matches_step s e :
  session_matches s → orderly s e = true → session_matches (step s e).
Proof.
  intros Hinv Hord. destruct e as [c now d|c now d|c now d|c now|c now];
    unfold step, handle.
  - destruct (on_join_room_state s c now d) as [-> | (room & username & -> & ->)];
      [done|].
    simpl in Hord. rewrite !andb_true_iff, !bool_decide_eq_true in Hord.
    destruct Hord as [[Hfree Hroom] Hname].
    by apply session_matches_join.
  - rewrite on_send_message_state.
    destruct (checkRateLimit_frame s c now) as (Hr & Hu & _).
    by apply (session_matches_ext s).
  - by rewrite on_typing_state.
  - unfold on_leave_room. destruct (userSockets s !! c) as [userData|]; [|done].
    cbn [fst]. apply session_matches_removeUserFromRoom.
    by apply (session_matches_ext s).
  - unfold on_disconnect.
    pose proof (session_matches_removeUserFromRoom (socket_leave_all s c) c)
      as Hrem.
    destruct (removeUserFromRoom (socket_leave_all s c) c) as [s1 [userData|]];
      cbn [fst] in *; apply Hrem; by apply (session_matches_ext s).
Qed.




(** ** Where the handlers depart from the specification *)

(** C2. The uniqueness check compares the requested name as received,
    the registry stores it trimmed: " alice" is admitted next to "alice"
    and the room then holds the username "alice" twice. *)
Theorem padded_username_duplicates :
  validateUsername (JStr " alice") = true
  ∧ userExistsInRoom one_member "lobby" " alice" = false
  ∧ usernames (getRoomUsers (run init duplicate_name_trace) "lobby")
    = ["alice"; "alice"]
  ∧ ¬ distinct_names (run init duplicate_name_trace) "lobby".
Proof.
  split; [reflexivity|]. split; [vm_compute; reflexivity|].
  assert (Hnames : usernames (getRoomUsers (run init duplicate_name_trace) "lobby")
                   = ["alice"; "alice"]) by (vm_compute; reflexivity).
  split; [done|]. unfold distinct_names. rewrite Hnames.
  intros Hnd. apply NoDup_cons in Hnd as [Hnotin _]. apply Hnotin.
  apply list_elem_of_here.
Qed.

(** C7. When the only member of "lobby" leaves through [leave_room], the
    room is removed and the handler still issues
    [io.to(room).emit("user_list_update", [])]; the [disconnect] handler,
    which guards that call, does not. And a room joined under an id with
    surrounding spaces is never removed: the binding holds the trimmed id,
    so the removal looks up a key the registry does not have, and the room
    stays listed with its departed member. *)
Theorem last_member_leave_room :
  on_leave_room one_member connA 1
  = (init,
     [io_to_emit "lobby" (receive_message (SystemMessage "alice left the room" 1));
      io_to_emit "lobby" (user_list_update [])])
  ∧ snd (on_disconnect one_member connA 1)
    = [io_to_emit "lobby" (receive_message (SystemMessage "alice left the room" 1))]
  ∧ userSockets (run init padded_room_trace) !! connA = None
  ∧ api_rooms (run init padded_room_trace) = [(" lobby ", 1%nat, ["alice"])].
Proof.
  repeat split; vm_compute; reflexivity.
Qed.

(** C8. The typing handler compares only the room with the binding: a
    connection bound as "alice" that sends a typing event under the name
    "bob" has it relayed to the other member of the room. *)
Theorem typing_other_username_relayed :
  let d := TypingData.Make (JStr "lobby") (JStr "bob") (JBool true) in
  userSockets two_members !! connA = Some (UserData.Make "lobby" "alice")
  ∧ bound_as two_members connA (TypingData.room d) (TypingData.username d) = false
  ∧ on_typing two_members connA (Some d)
    = (two_members,
       [socket_to_emit connA "lobby" (user_typing "bob" (JBool true))])
  ∧ recipients two_members
      (socket_to_emit connA "lobby" (user_typing "bob" (JBool true)))
    = {[connB]}.
Proof.
  repeat split; vm_compute; reflexivity.
Qed.

(** C9. The rate window is deleted only inside the removal of a bound
    connection: one that never joined, sent a message and disconnects
    leaves its window behind. *)
Theorem unbound_disconnect_keeps_rate_window :
  userSockets init !! connA = None
  ∧ userSockets (step init (send_message connA 0
                              (message_payload "lobby" "alice" "hi"))) !! connA
    = None
  ∧ messageLimiter (run init unbound_sender_trace) !! connA = Some [0].
Proof.
  repeat split; vm_compute; reflexivity.
Qed.

(** ** Registry members and socket.io rooms *)

Lemma sockets_in_socket_leave s c room r :
  sockets_in (socket_leave s c room) r
  = if decide (r = room) then sockets_in s room ∖ {[c]} else sockets_in s r.
Proof.
  unfold sockets_in, socket_leave. simpl.
  destruct (decide (r = room)) as [->|Hne].
  - case_decide as Hempty.
    + rewrite lookup_delete_eq. simpl. by rewrite Hempty.
    + by rewrite lookup_insert_eq.
  - case_decide; [by rewrite lookup_delete_ne | by rewrite lookup_insert_ne].
Qed.

Lemma sockets_in_socket_leave_all s c r :
  sockets_in (socket_leave_all s c) r = sockets_in s r ∖ {[c]}.
Proof.
  unfold sockets_in, socket_leave_all. simpl. rewrite lookup_omap.
  destruct (adapter s !! r) as [members|]; simpl.
  - case_decide as Hempty; simpl; [by rewrite Hempty | done].
  - apply set_eq. intros x. rewrite elem_of_difference.
    split; [intros []%not_elem_of_empty | intros [[]%not_elem_of_empty _]].
Qed.

Lemma sockets_in_removeUserFromRoom s c r :
  sockets_in (fst (removeUserFromRoom s c)) r = sockets_in s r.
Proof.
  unfold removeUserFromRoom. by destruct (userSockets s !! c).
Qed.

Lemma attached_step s e :
  session_matches s → (∀ r, attached s r) → orderly s e = true →
  ∀ r, attached (step s e) r.
Proof.
  intros Hinv Hatt Hord r m.
  destruct e as [c now d|c now d|c now d|c now|c now]; unfold step, handle.
  - destruct (on_join_room_state s c now d) as [-> | (room & username & -> & ->)];
      [apply Hatt|].
    rewrite getRoomUsers_addUserToRoom, sockets_in_addUserToRoom,
      sockets_in_socket_join.
    change (getRoomUsers (socket_join s c room)) with (getRoomUsers s).
    case_decide as Hr; [subst r | apply Hatt].
    rewrite elem_of_union, elem_of_singleton.
    destruct (present c (getRoomUsers s room)).
    + intros Hm. right. by apply Hatt.
    + intros [Hm | ->%list_elem_of_singleton]%elem_of_app;
        [right; by apply Hatt | by left].
  - rewrite on_send_message_state. unfold attached, getRoomUsers, sockets_in in *.
    destruct (checkRateLimit_frame s c now) as (-> & _ & ->). apply Hatt.
  - rewrite on_typing_state. apply Hatt.
  - unfold on_leave_room.
    destruct (userSockets s !! c) as [userData|] eqn:Hb; [|apply Hatt].
    cbn [fst].
    rewrite (getRoomUsers_removeUserFromRoom _ c userData) by done.
    rewrite sockets_in_removeUserFromRoom, sockets_in_socket_leave.
    change (getRoomUsers (socket_leave s c (UserData.room userData)))
      with (getRoomUsers s).
    case_decide as Hr; [subst r | apply Hatt].
    rewrite list_elem_of_filter, elem_of_difference, elem_of_singleton.
    intros [Hne Hm]. split; [by apply Hatt | done].
  - unfold on_disconnect.
    assert (Hgoal : m ∈ getRoomUsers
                          (fst (removeUserFromRoom (socket_leave_all s c) c)) r →
                    Member.socketId m
                    ∈ sockets_in
                        (fst (removeUserFromRoom (socket_leave_all s c) c)) r).
    { rewrite sockets_in_removeUserFromRoom, sockets_in_socket_leave_all.
      rewrite elem_of_difference, elem_of_singleton.
      destruct (userSockets s !! c) as [userData|] eqn:Hb.
      - rewrite (getRoomUsers_removeUserFromRoom _ c userData) by done.
        change (getRoomUsers (socket_leave_all s c)) with (getRoomUsers s).
        case_decide as Hr.
        + rewrite list_elem_of_filter. intros [Hne Hm].
          split; [by apply Hatt | done].
        + intros Hm. split; [by apply Hatt|]. intros Hc.
          assert (Hmem : is_member s c r (Member.username m)) by (by exists m).
          apply Hinv in Hmem. rewrite Hb in Hmem. by injection Hmem as ->.
      - rewrite removeUserFromRoom_unbound by done. intros Hm.
        split; [by apply Hatt|]. intros Hc.
        assert (Hmem : is_member s c r (Member.username m)) by (by exists m).
        apply Hinv in Hmem. congruence. }
    by destruct (removeUserFromRoom (socket_leave_all s c) c) as [s1 [ud|]].
Qed.

(** Over orderly events every Member's socket is joined to the socket.io
    room of its room, so a broadcast to the room reaches every Member. *)
Lemma attached_orderly tr : ∀ s,
  session_matches s → (∀ r, attached s r) → orderly_run s tr = true →
  ∀ r, attached (run s tr) r.
Proof.
  induction tr as [|e tr IH]; intros s Hinv Hatt Hord; [done|].
  simpl in Hord. apply andb_true_iff in Hord as [He Htr]. simpl.
  apply IH; [by apply session_matches_step | by apply attached_step | done].
Qed.

Lemma attached_init r : attached init r.
Proof. intros m Hm. by apply elem_of_nil in Hm. Qed.

(** ** What the handlers do guarantee around C2, C7, C8 and C9 *)

(** A request whose username, as received, equals a member's username up
    to case is refused and changes nothing. *)
Lemma join_room_username_taken s c now room username m :
  validateRoom (JStr room) = true →
  m ∈ getRoomUsers s room →
  Js.toLowerCase (Member.username m) = Js.toLowerCase username →
  validateUsername (JStr username) = true →
  on_join_room s c now (join_payload room username)
  = (s, [socket_emit c (error "Username already taken in this room.")]).
Proof.
  intros Hr Hm Hsame Hu. unfold on_join_room, join_payload.
  cbn [JoinData.username JoinData.room]. rewrite Hu, Hr. cbn [negb].
  assert (Htaken : userExistsInRoom s room username = true).
  { unfold userExistsInRoom. apply existsb_exists. exists m.
    split; [by apply list_elem_of_In | by apply bool_decide_eq_true]. }
  by rewrite Htaken.
Qed.

(** The typing handler never answers with an error, changes nothing, and
    relays only for a bound connection, to its bound room, never back to
    the sender. *)
Lemma on_typing_relay s c data em :
  em ∈ snd (on_typing s c data) →
  ∃ room username isTyping userData,
    em = socket_to_emit c room (user_typing username isTyping)
    ∧ userSockets s !! c = Some userData
    ∧ UserData.room userData = room
    ∧ c ∉ recipients s em.
Proof.
  unfold on_typing. destruct data as [[r u v]|]; simpl;
    [|by intros ?%elem_of_nil].
  destruct (negb (validateRoom r) || negb (validateUsername u));
    [by intros ?%elem_of_nil|].
  destruct r as [| | | |room]; try (by intros ?%elem_of_nil).
  destruct u as [| | | |username]; try (by intros ?%elem_of_nil).
  destruct (userSockets s !! c) as [userData|]; [|by intros ?%elem_of_nil].
  case_bool_decide as Hroom; [by intros ?%elem_of_nil|].
  intros ->%list_elem_of_singleton.
  exists room, username, v, userData.
  split; [done|]. split; [done|]. split; [by destruct (decide (UserData.room userData = room))|].
  simpl. rewrite elem_of_difference, elem_of_singleton. tauto.
Qed.

(** A typing event naming another room than the bound one, or sent
    without a binding, is ignored without any reply. *)
Lemma on_typing_other_room s c room username isTyping :
  (∀ userData, userSockets s !! c = Some userData →
               UserData.room userData ≠ room) →
  on_typing s c (Some (TypingData.Make (JStr room) username isTyping)) = (s, []).
Proof.
  intros Hother. unfold on_typing.
  cbn [TypingData.room TypingData.username TypingData.isTyping].
  destruct (negb (validateRoom (JStr room)) || negb (validateUsername username));
    [done|].
  destruct username; try done.
  destruct (userSockets s !! c) as [userData|]; [|done].
  by rewrite bool_decide_eq_true_2 by (by apply Hother).
Qed.

Lemma removeUserFromRoom_clears s c userData :
  userSockets s !! c = Some userData →
  messageLimiter (fst (removeUserFromRoom s c)) !! c = None
  ∧ userSockets (fst (removeUserFromRoom s c)) !! c = None.
Proof.
  intros Hb. unfold removeUserFromRoom. rewrite Hb. simpl.
  by rewrite !lookup_delete_eq.
Qed.

(** For a bound connection, leaving and disconnecting both delete the
    rate window and the binding. *)
Lemma bound_departure_clears_rate_window s c now userData :
  userSockets s !! c = Some userData →
  messageLimiter (fst (on_disconnect s c now)) !! c = None
  ∧ userSockets (fst (on_disconnect s c now)) !! c = None
  ∧ messageLimiter (fst (on_leave_room s c now)) !! c = None
  ∧ userSockets (fst (on_leave_room s c now)) !! c = None.
Proof.
  intros Hb.
  destruct (removeUserFromRoom_clears (socket_leave_all s c) c userData Hb)
    as [Hl Hu].
  destruct (removeUserFromRoom_clears
              (socket_leave s c (UserData.room userData)) c userData Hb)
    as [Hl' Hu'].
  unfold on_disconnect, on_leave_room. rewrite Hb. cbn [fst].
  by destruct (removeUserFromRoom (socket_leave_all s c) c) as [s1 [ud|]].
Qed.

(** The disconnect handler sends no member list for a room it emptied. *)
Lemma on_disconnect_update_nonempty s c now room users :
  io_to_emit room (user_list_update users) ∈ snd (on_disconnect s c now) →
  users ≠ [].
Proof.
  unfold on_disconnect.
  destruct (removeUserFromRoom (socket_leave_all s c) c) as [s1 [userData|]];
    simpl; [|by intros ?%elem_of_nil].
  intros [Hhd | Htl]%elem_of_cons; [discriminate|].
  destruct (getRoomUsers s1 (UserData.room userData)) as [|m l];
    simpl in Htl; [by apply elem_of_nil in Htl|].
  apply list_elem_of_singleton in Htl. injection Htl as _ ->. discriminate.
Qed.

(** When the room of the binding is a key of the registry and the leaving
    connection is its only member, the removal deletes the room. *)
Lemma removeUserFromRoom_last_member s c userData members :
  userSockets s !! c = Some userData →
  rooms s !! UserData.room userData = Some members →
  Forall (λ u, Member.socketId u = c) members →
  rooms (fst (removeUserFromRoom s c)) !! UserData.room userData = None.
Proof.
  intros Hb Hr Hall. unfold removeUserFromRoom. rewrite Hb. simpl. rewrite Hr.
  assert (Hnil : filter (λ u, Member.socketId u ≠ c) members = []).
  { clear Hr. induction Hall as [|u l Hu _ IH]; [done|].
    rewrite filter_cons_False; [exact IH | intros Hne; by apply Hne]. }
  rewrite Hnil. simpl. apply lookup_delete_eq.
Qed.

(** A room is listed by [/api/rooms] exactly when it is a key of [rooms]. *)
Lemma listed_iff s room : listed s room ↔ is_Some (rooms s !! room).
Proof.
  unfold listed, api_rooms. split.
  - intros (n & us & Hin). apply list_elem_of_fmap in Hin as ([r users] & Heq & Hin).
    injection Heq as -> _ _. apply elem_of_map_to_list in Hin. by eexists.
  - intros [users Hr]. exists (length users), (usernames users).
    apply list_elem_of_fmap. exists (room, users). split; [done|].
    by apply elem_of_map_to_list.
Qed.

(** ** Lifetime of the rate window *)

(** The window belongs to the binding's lifetime: [removeUserFromRoom]
    deletes it on [leave_room] too, so a member that leaves and joins
    again starts on a fresh window. *)
Lemma window_restarts_after_leave_room :
  stored (run init leave_and_return_trace) connA = []
  ∧ handle (run init leave_and_return_trace)
      (send_message connA 13 (message_payload "lobby" "alice" "hi"))
    = (snd (checkRateLimit (run init leave_and_return_trace) connA 13),
       [io_to_emit "lobby"
          (receive_message (UserMessage "lobby" "alice" "hi" 13 (connA, 13)))]).
Proof. split; vm_compute; reflexivity. Qed.

(** * Further properties of the code *)

(** ** [trim] and [toLowerCase] *)

Lemma string_app_cons a s1 s2 : String a s1 +:+ s2 = String a (s1 +:+ s2).
Proof. reflexivity. Qed.

Lemma string_app_nil_r s : s +:+ "" = s.
Proof.
  induction s as [|a s IH]; [done|]. by rewrite string_app_cons, IH.
Qed.

Lemma string_app_assoc s1 s2 s3 : (s1 +:+ s2) +:+ s3 = s1 +:+ (s2 +:+ s3).
Proof.
  induction s1 as [|a s1 IH]; [done|]. by rewrite !string_app_cons, IH.
Qed.

Lemma string_length_app s1 s2 :
  String.length (s1 +:+ s2) = (String.length s1 + String.length s2)%nat.
Proof.
  induction s1 as [|a s1 IH]; [done|]. rewrite string_app_cons. simpl.
  by rewrite IH.
Qed.

Lemma string_rev_app s1 s2 : String.rev_app s1 s2 = String.rev s1 +:+ s2.
Proof.
  unfold String.rev. revert s2.
  induction s1 as [|a s1 IH]; intros s2; simpl; [done|].
  rewrite (IH (String a s2)), (IH (String a "")).
  by rewrite string_app_assoc.
Qed.

Lemma string_rev_cons a s : String.rev (String a s) = String.rev s +:+ String a "".
Proof. unfold String.rev at 1. simpl. apply string_rev_app. Qed.

Lemma string_rev_snoc s a : String.rev (s +:+ String a "") = String a (String.rev s).
Proof.
  induction s as [|b s IH]; [done|].
  by rewrite string_app_cons, !string_rev_cons, IH.
Qed.

Lemma string_rev_involutive s : String.rev (String.rev s) = s.
Proof.
  induction s as [|a s IH]; [done|].
  by rewrite string_rev_cons, string_rev_snoc, IH.
Qed.

Lemma string_rev_length s : String.length (String.rev s) = String.length s.
Proof.
  induction s as [|a s IH]; [done|].
  rewrite string_rev_cons, string_length_app, IH. simpl. lia.
Qed.

Lemma trimStart_head_ok s : head_ok (Js.trimStart s).
Proof.
  induction s as [|a s IH]; simpl; [done|].
  destruct (Js.isWhiteSpace a) eqn:Ha; [done | by simpl].
Qed.

Lemma trimStart_id s : head_ok s → Js.trimStart s = s.
Proof. destruct s as [|a s]; simpl; [done|]. by intros ->. Qed.

Lemma trimStart_length s :
  (String.length (Js.trimStart s) ≤ String.length s)%nat.
Proof.
  induction s as [|a s IH]; simpl; [done|].
  destruct (Js.isWhiteSpace a); simpl; lia.
Qed.

Lemma trimStart_snoc s a :
  Js.isWhiteSpace a = false →
  Js.trimStart (s +:+ String a "") = Js.trimStart s +:+ String a "".
Proof.
  intros Ha. induction s as [|b s IH].
  - simpl. by rewrite Ha.
  - rewrite string_app_cons. simpl. by destruct (Js.isWhiteSpace b).
Qed.

Lemma trimEnd_head_ok s : head_ok s → head_ok (Js.trimEnd s).
Proof.
  destruct s as [|a s]; [done|]. simpl. intros Ha. unfold Js.trimEnd.
  rewrite string_rev_cons, trimStart_snoc, string_rev_snoc by done.
  by simpl.
Qed.

Lemma trimEnd_idemp s : Js.trimEnd (Js.trimEnd s) = Js.trimEnd s.
Proof.
  unfold Js.trimEnd. rewrite string_rev_involutive.
  by rewrite (trimStart_id (Js.trimStart _)) by apply trimStart_head_ok.
Qed.

Lemma trim_idemp s : Js.trim (Js.trim s) = Js.trim s.
Proof.
  unfold Js.trim.
  rewrite (trimStart_id (Js.trimEnd _))
    by apply trimEnd_head_ok, trimStart_head_ok.
  apply trimEnd_idemp.
Qed.

Lemma trim_length s : Js.length (Js.trim s) ≤ Js.length s.
Proof.
  unfold Js.length, Js.trim, Js.trimEnd. rewrite string_rev_length.
  pose proof (trimStart_length (String.rev (Js.trimStart s))) as H1.
  rewrite string_rev_length in H1.
  pose proof (trimStart_length s). lia.
Qed.

Lemma trim_nonempty s : 0 < Js.length (Js.trim s) → Js.trim s ≠ EmptyString.
Proof. intros Hlen Hnil. rewrite Hnil in Hlen. by vm_compute in Hlen. Qed.

(** ** Invariants of every reachable state *)

Lemma run_snoc s tr e : run s (tr ++ [e]) = step (run s tr) e.
Proof. unfold run. by rewrite fold_left_app. Qed.

Lemma run_invariant (P : server → Prop) :
  P init → (∀ s e, P s → P (step s e)) → ∀ tr, P (run init tr).
Proof.
  intros Hinit Hstep tr. induction tr as [|e tr IH] using rev_ind; [done|].
  rewrite run_snoc. by apply Hstep.
Qed.

Lemma rooms_addUserToRoom s room username c now :
  rooms (addUserToRoom s room username c now)
  = <[room := if present c (getRoomUsers s room) then getRoomUsers s room
              else getRoomUsers s room ++ [new_member username c now]]>
      (rooms s).
Proof.
  unfold addUserToRoom, getRoomUsers, present, new_member. simpl.
  destruct (rooms s !! room) as [users|] eqn:Hr; simpl.
  - by rewrite Hr.
  - by rewrite lookup_insert_eq, insert_insert_eq.
Qed.

(** What one event does to the two registries: nothing, one
    [addUserToRoom] behind the three checks of the join handler, or one
    [removeUserFromRoom]. *)
Lemma step_registry s e :
  (rooms (step s e) = rooms s ∧ userSockets (step s e) = userSockets s)
  ∨ (∃ c now room username,
       e = join_room c now (join_payload room username)
       ∧ validateUsername (JStr username) = true
       ∧ validateRoom (JStr room) = true
       ∧ userExistsInRoom s room username = false
       ∧ rooms (step s e) = rooms (addUserToRoom s room username c now)
       ∧ userSockets (step s e)
         = userSockets (addUserToRoom s room username c now))
  ∨ (∃ c, rooms (step s e) = rooms (fst (removeUserFromRoom s c))
          ∧ userSockets (step s e)
            = userSockets (fst (removeUserFromRoom s c))).
Proof.
  destruct e as [c now d|c now d|c now d|c now|c now]; unfold step, handle.
  - unfold on_join_room. destruct d as [[r u]|]; [|by left]. simpl.
    destruct (validateUsername u) eqn:Hu; simpl; [|by left].
    destruct (validateRoom r) eqn:Hr; simpl; [|by left].
    destruct r as [| | | |room]; try (by left).
    destruct u as [| | | |username]; try (by left).
    destruct (userExistsInRoom s room username) eqn:Hfree; [by left|].
    right. left. by exists c, now, room, username.
  - left. rewrite on_send_message_state.
    by destruct (checkRateLimit_frame s c now) as (-> & -> & _).
  - left. by rewrite on_typing_state.
  - unfold on_leave_room.
    destruct (userSockets s !! c) as [userData|] eqn:Hb; [|by left].
    right. right. exists c. unfold removeUserFromRoom. simpl. by rewrite Hb.
  - right. right. exists c. unfold on_disconnect, removeUserFromRoom. simpl.
    by destruct (userSockets s !! c).
Qed.

Lemma rooms_inhabited_step s e : rooms_inhabited s → rooms_inhabited (step s e).
Proof.
  intros Hinv room users.
  destruct (step_registry s e)
    as [[-> _] | [(c & now & r & u & _ & _ & _ & _ & -> & _) | (c & -> & _)]].
  - apply Hinv.
  - rewrite rooms_addUserToRoom.
    destruct (decide (room = r)) as [->|Hne];
      [|rewrite lookup_insert_ne by done; apply Hinv].
    rewrite lookup_insert_eq. intros [= <-].
    destruct (present c (getRoomUsers s r)) eqn:Hp.
    + apply elem_of_present in Hp as (m & Hm & _).
      intros Hnil. rewrite Hnil in Hm. by apply elem_of_nil in Hm.
    + by destruct (getRoomUsers s r).
  - unfold removeUserFromRoom.
    destruct (userSockets s !! c) as [userData|]; simpl; [|apply Hinv].
    destruct (rooms s !! UserData.room userData) as [members|];
      [|apply Hinv].
    destruct (filter (λ u, Member.socketId u ≠ c) members) as [|m l] eqn:Hf.
    + simpl. destruct (decide (room = UserData.room userData)) as [->|Hne].
      * by rewrite lookup_delete_eq.
      * rewrite lookup_delete_ne by done. apply Hinv.
    + replace (Z.of_nat (length (m :: l)) =? 0) with false
        by (symmetry; apply Z.eqb_neq; simpl; lia).
      destruct (decide (room = UserData.room userData)) as [->|Hne].
      * rewrite lookup_insert_eq. by intros [= <-].
      * rewrite lookup_insert_ne by done. apply Hinv.
Qed.

Lemma rooms_inhabited_init : rooms_inhabited init.
Proof. intros room users. simpl. by rewrite lookup_empty. Qed.

(** X1. In every reachable state each room of the registry has at least
    one member: a room is created only together with its first member and
    is deleted with its last, so [/api/rooms] never lists an empty room. *)
Theorem reachable_rooms_inhabited (tr : list event) :
  rooms_inhabited (run init tr)
  ∧ ∀ room n names, (room, n, names) ∈ api_rooms (run init tr) → (1 ≤ n)%nat.
Proof.
  assert (Hinv : rooms_inhabited (run init tr)).
  { apply run_invariant; [apply rooms_inhabited_init|].
    intros s e. apply rooms_inhabited_step. }
  split; [done|].
  intros room n names Hin. unfold api_rooms in Hin.
  apply list_elem_of_fmap in Hin as ([r users] & Heq & Hin).
  injection Heq as -> -> ->. apply elem_of_map_to_list in Hin.
  apply Hinv in Hin. destruct users; [done | simpl; lia].
Qed.

Lemma reachable_rooms_inhabited_witness : (1 ≤ 2)%nat.
Proof.
  apply (proj2 (reachable_rooms_inhabited
                  [join_room connA 0 (join_payload "lobby" "alice");
                   join_room connB 1 (join_payload "lobby" "bob")])
           "lobby" 2%nat ["alice"; "bob"]).
  replace (api_rooms
             (run init [join_room connA 0 (join_payload "lobby" "alice");
                        join_room connB 1 (join_payload "lobby" "bob")]))
    with [("lobby", 2%nat, ["alice"; "bob"])] by (vm_compute; reflexivity).
  apply list_elem_of_here.
Defined.

Lemma one_entry_per_connection_step s e :
  one_entry_per_connection s → one_entry_per_connection (step s e).
Proof.
  intros Hinv room.
  destruct (step_registry s e)
    as [[Hr _] | [(c & now & r & u & _ & _ & _ & _ & Hr & _) | (c & Hr & _)]];
    unfold getRoomUsers; rewrite Hr; fold (getRoomUsers s room).
  - apply Hinv.
  - change (NoDup (map Member.socketId
                     (getRoomUsers (addUserToRoom s r u c now) room))).
    rewrite getRoomUsers_addUserToRoom.
    case_decide as Heq; [subst room | apply Hinv].
    destruct (present c (getRoomUsers s r)) eqn:Hp; [apply Hinv|].
    rewrite map_app. apply NoDup_app. split; [apply Hinv|].
    split; [|apply NoDup_singleton].
    intros x Hx ->%list_elem_of_singleton.
    apply list_elem_of_fmap in Hx as (m & Hc & Hm).
    assert (present c (getRoomUsers s r) = true); [|congruence].
    apply elem_of_present. by exists m.
  - change (NoDup (map Member.socketId
                     (getRoomUsers (fst (removeUserFromRoom s c)) room))).
    destruct (userSockets s !! c) as [userData|] eqn:Hb.
    + rewrite (getRoomUsers_removeUserFromRoom s c userData) by done.
      case_decide; [|apply Hinv].
      eapply sublist_NoDup; [apply Hinv|].
      apply (fmap_sublist Member.socketId), sublist_filter.
    + rewrite removeUserFromRoom_unbound by done. apply Hinv.
Qed.

Lemma one_entry_per_connection_init : one_entry_per_connection init.
Proof.
  intros room. unfold getRoomUsers. simpl. rewrite lookup_empty. constructor.
Qed.

(** X2. In every reachable state no connection has two Member entries in
    one room: [addUserToRoom] pushes an entry only when the socket id is
    not found in the room. *)
Theorem reachable_one_entry_per_connection (tr : list event) :
  one_entry_per_connection (run init tr).
Proof.
  apply run_invariant; [apply one_entry_per_connection_init|].
  intros s e. apply one_entry_per_connection_step.
Qed.

Lemma stored_step s e c :
  stored (step s e) c = stored s c
  ∨ stored (step s e) c = []
  ∨ ∃ now, fst (checkRateLimit s c now) = true
           ∧ stored (step s e) c = recent s c now ++ [now].
Proof.
  destruct e as [c' now d|c' now d|c' now d|c' now|c' now]; unfold step, handle.
  - left. destruct (on_join_room_state s c' now d)
      as [-> | (room & username & -> & ->)]; done.
  - rewrite on_send_message_state.
    destruct (decide (c' = c)) as [->|Hne].
    + rewrite stored_checkRateLimit.
      destruct (fst (checkRateLimit s c now)) eqn:Hok; [|by left].
      right. right. by exists now.
    + left. by apply stored_checkRateLimit_other.
  - left. by rewrite on_typing_state.
  - unfold on_leave_room.
    destruct (userSockets s !! c') as [userData|] eqn:Hb; [|by left].
    unfold removeUserFromRoom. simpl. rewrite Hb. simpl. unfold stored. simpl.
    destruct (decide (c' = c)) as [->|Hne].
    + right. left. by rewrite lookup_delete_eq.
    + left. by rewrite lookup_delete_ne.
  - unfold on_disconnect, removeUserFromRoom. simpl.
    destruct (userSockets s !! c') as [userData|] eqn:Hb; [|by left].
    simpl. unfold stored. simpl.
    destruct (decide (c' = c)) as [->|Hne].
    + right. left. by rewrite lookup_delete_eq.
    + left. by rewrite lookup_delete_ne.
Qed.

(** X3. In every reachable state the rate window of every connection
    holds at most ten timestamps: a check appends only to a window that,
    after dropping the stale entries, has fewer than ten. *)
Theorem reachable_windows_bounded (tr : list event) :
  windows_bounded (run init tr).
Proof.
  apply run_invariant.
  - intros c. unfold stored. simpl. by rewrite lookup_empty.
  - clear tr. intros s e Hinv c. unfold MESSAGE_RATE_LIMIT in *.
    destruct (stored_step s e c) as [-> | [-> | (now & Hok & ->)]].
    + apply Hinv.
    + simpl. lia.
    + rewrite checkRateLimit_verdict in Hok. unfold MESSAGE_RATE_LIMIT in Hok.
      apply negb_true_iff, Z.leb_gt in Hok. rewrite length_app. simpl. lia.
Qed.

(** ** Names the registries hold *)

Lemma run_invariant_where (Q : event → bool) (P : server → Prop) :
  P init → (∀ s e, P s → Q e = true → P (step s e)) →
  ∀ tr, forallb Q tr = true → P (run init tr).
Proof.
  intros Hinit Hstep tr. induction tr as [|e tr IH] using rev_ind; [done|].
  rewrite forallb_app, andb_true_iff. simpl. rewrite andb_true_r.
  intros [Htr He]. rewrite run_snoc. apply Hstep; [by apply IH | done].
Qed.

Lemma validated_clean v name :
  within_bounds v → v = JStr name → clean (Js.trim name).
Proof. intros Hb ->. split; [apply trim_idemp | exact Hb]. Qed.

(** X4. In every reachable state every username of a Member and every
    room id and username of a SessionBinding is trimmed and 2 to 20
    characters long: the validators bound the trimmed length and
    [addUserToRoom] stores the trimmed strings. *)
Theorem reachable_names_clean (tr : list event) : names_clean (run init tr).
Proof.
  apply run_invariant.
  - split.
    + intros room m Hm. by apply elem_of_nil in Hm.
    + intros c userData. simpl. by rewrite lookup_empty.
  - clear tr. intros s e [Hmem Hbind].
    destruct (step_registry s e)
      as [[Hr Hu] | [(c & now & r & u & _ & Hvu & Hvr & _ & Hr & Hu)
                    | (c & Hr & Hu)]];
      (split; [intros room m; unfold getRoomUsers; rewrite Hr
              | intros c' userData; rewrite Hu]).
    + apply Hmem.
    + apply Hbind.
    + fold (getRoomUsers (addUserToRoom s r u c now) room).
      rewrite getRoomUsers_addUserToRoom.
      case_decide; [|apply Hmem].
      destruct (present c (getRoomUsers s r)); [apply (Hmem r)|].
      intros [Hm | ->%list_elem_of_singleton]%elem_of_app; [by apply (Hmem r)|].
      simpl. apply validateUsername_bounds in Hvu.
      by apply (validated_clean (JStr u)).
    + rewrite userSockets_addUserToRoom.
      destruct (decide (c = c')) as [->|Hne].
      * rewrite lookup_insert_eq. intros [= <-]. simpl.
        apply validateUsername_bounds in Hvu.
        apply validateRoom_bounds in Hvr.
        split; [by apply (validated_clean (JStr r))
               | by apply (validated_clean (JStr u))].
      * rewrite lookup_insert_ne by done. apply Hbind.
    + fold (getRoomUsers (fst (removeUserFromRoom s c)) room).
      destruct (userSockets s !! c) as [ud|] eqn:Hb.
      * rewrite (getRoomUsers_removeUserFromRoom s c ud) by done.
        case_decide; [|apply Hmem].
        intros [_ Hm]%list_elem_of_filter. by apply (Hmem room).
      * rewrite removeUserFromRoom_unbound by done. apply Hmem.
    + rewrite userSockets_removeUserFromRoom.
      destruct (decide (c = c')) as [->|Hne].
      * by rewrite lookup_delete_eq.
      * rewrite lookup_delete_ne by done. apply Hbind.
Qed.

Lemma userExistsInRoom_false s room username :
  userExistsInRoom s room username = false →
  Js.toLowerCase username
  ∉ map Js.toLowerCase (usernames (getRoomUsers s room)).
Proof.
  unfold userExistsInRoom, usernames. intros Hfree Hin.
  apply list_elem_of_fmap in Hin as (name & Hname & Hin).
  apply list_elem_of_fmap in Hin as (m & -> & Hm).
  assert (Htaken : existsb
                     (λ u, bool_decide (Js.toLowerCase (Member.username u)
                                        = Js.toLowerCase username))
                     (getRoomUsers s room) = true); [|congruence].
  apply existsb_exists. exists m.
  split; [by apply list_elem_of_In | by apply bool_decide_eq_true].
Qed.

(** X5. As long as every [join_room] carries a username without
    surrounding white space, the usernames of every room stay pairwise
    distinct without regard to case, whatever else the connections do
    (joining twice, untrimmed room ids, any order of events). *)
Theorem trimmed_joins_distinct_names (tr : list event) :
  forallb trimmed_join tr = true → ∀ room, distinct_names (run init tr) room.
Proof.
  apply (run_invariant_where trimmed_join (λ s, ∀ room, distinct_names s room)).
  - intros room. unfold distinct_names, getRoomUsers. simpl.
    rewrite lookup_empty. constructor.
  - clear tr. intros s e Hinv Htrim room. unfold distinct_names.
    destruct (step_registry s e)
      as [[Hr _] | [(c & now & r & u & -> & _ & _ & Hfree & Hr & _)
                    | (c & Hr & _)]];
      unfold getRoomUsers; rewrite Hr.
    + apply Hinv.
    + fold (getRoomUsers (addUserToRoom s r u c now) room).
      rewrite getRoomUsers_addUserToRoom.
      case_decide as Heq; [subst room | apply Hinv].
      destruct (present c (getRoomUsers s r)); [apply Hinv|].
      unfold usernames. rewrite !map_app. apply NoDup_app.
      split; [apply Hinv|]. split; [|apply NoDup_singleton].
      intros x Hx ->%list_elem_of_singleton.
      simpl in Htrim. apply bool_decide_eq_true in Htrim.
      simpl in Hx. rewrite Htrim in Hx.
      by apply (userExistsInRoom_false s r u).
    + fold (getRoomUsers (fst (removeUserFromRoom s c)) room).
      destruct (userSockets s !! c) as [ud|] eqn:Hb.
      * rewrite (getRoomUsers_removeUserFromRoom s c ud) by done.
        case_decide; [|apply Hinv].
        eapply sublist_NoDup; [apply Hinv|].
        apply (fmap_sublist Js.toLowerCase), (fmap_sublist Member.username),
          sublist_filter.
      * rewrite removeUserFromRoom_unbound by done. apply Hinv.
Qed.

Lemma trimmed_joins_distinct_names_witness :
  distinct_names (run init orderly_trace) "lobby".
Proof.
  apply (trimmed_joins_distinct_names orderly_trace). reflexivity.
Defined.

Lemma validateUsername_trim s :
  validateUsername (JStr (Js.trim s)) = validateUsername (JStr s).
Proof.
  unfold validateUsername, MIN_USERNAME_LENGTH, MAX_USERNAME_LENGTH.
  rewrite trim_idemp.
  case_bool_decide as Ht; case_bool_decide as Hs; try done.
  - by rewrite Ht.
  - subst s. by rewrite trim_empty in Ht.
Qed.

Lemma validateRoom_trim s :
  validateRoom (JStr (Js.trim s)) = validateRoom (JStr s).
Proof.
  unfold validateRoom, MIN_ROOM_LENGTH, MAX_ROOM_LENGTH.
  rewrite trim_idemp.
  case_bool_decide as Ht; case_bool_decide as Hs; try done.
  - by rewrite Ht.
  - subst s. by rewrite trim_empty in Ht.
Qed.

(** X6. The validators look at the trimmed value only: a username or
    room id is accepted exactly when its trimmed form is, and the trimmed
    text of an accepted message is itself an accepted message. *)
Theorem validators_ignore_padding (s : string) :
  validateUsername (JStr (Js.trim s)) = validateUsername (JStr s)
  ∧ validateRoom (JStr (Js.trim s)) = validateRoom (JStr s)
  ∧ (validateMessage (JStr s) = true →
     validateMessage (JStr (Js.trim s)) = true).
Proof.
  split; [apply validateUsername_trim|]. split; [apply validateRoom_trim|].
  unfold validateMessage, MAX_MESSAGE_LENGTH. rewrite trim_idemp.
  case_bool_decide as Hs; [done|].
  rewrite andb_true_iff, Z.ltb_lt, Z.leb_le. intros [Hpos Hlen].
  rewrite bool_decide_eq_false_2 by (by apply trim_nonempty).
  apply andb_true_iff. rewrite Z.ltb_lt, Z.leb_le.
  pose proof (trim_length s). lia.
Qed.

Lemma validators_ignore_padding_witness :
  validateMessage (JStr (Js.trim "  hi  ")) = true.
Proof.
  apply (validators_ignore_padding "  hi  "). reflexivity.
Defined.

(** ** Accepted messages *)

(** X7. A [send_message] that the rate limiter admits, whose payload
    passes validation and names exactly the sender's binding, is answered
    by one [receive_message] broadcast to the room, carrying room, author,
    the trimmed text, the clock reading and the id (socket id, clock
    reading). The text sent is never blank, never longer than 500
    characters and carries no surrounding white space; rooms, bindings and
    room membership stay as they were. *)
Theorem send_message_broadcast
    (s : server) (c : conn) (now : Z) (room author message : string) :
  fst (checkRateLimit s c now) = true →
  shape_ok (MessageData.Make (JStr room) (JStr author) (JStr message)) = true →
  userSockets s !! c = Some (UserData.Make room author) →
  let s' := step s (send_message c now (message_payload room author message)) in
  let text := Js.trim message in
  snd (handle s (send_message c now (message_payload room author message)))
  = [io_to_emit room
       (receive_message (UserMessage room author text now (c, now)))]
  ∧ 0 < Js.length text ≤ 500
  ∧ Js.trim text = text
  ∧ rooms s' = rooms s ∧ userSockets s' = userSockets s
  ∧ ∀ r, sockets_in s' r = sockets_in s r.
Proof.
  intros Hok Hshape Hb. cbv zeta. unfold step, handle, message_payload.
  rewrite on_send_message_state.
  destruct (checkRateLimit_frame s c now) as (Hr & Hu & Ha).
  split.
  { rewrite on_send_message_reply by done.
    unfold shape_ok in Hshape. rewrite !andb_true_iff in Hshape.
    destruct Hshape as [[-> ->] ->]. simpl.
    unfold bound_as. rewrite Hb. simpl.
    by rewrite !bool_decide_eq_true_2. }
  unfold shape_ok in Hshape. rewrite !andb_true_iff in Hshape.
  destruct Hshape as [_ Hm]. simpl in Hm. unfold validateMessage in Hm.
  case_bool_decide; [done|].
  apply andb_true_iff in Hm as [Hpos Hlen].
  apply Z.ltb_lt in Hpos. apply Z.leb_le in Hlen.
  unfold MAX_MESSAGE_LENGTH in Hlen. pose proof (trim_length message).
  split; [lia|]. split; [apply trim_idemp|].
  split; [done|]. split; [done|].
  intros r. unfold sockets_in. by rewrite Ha.
Qed.

Lemma send_message_broadcast_witness :
  snd (handle two_members
         (send_message connB 2 (message_payload "lobby" "bob" " hi ")))
  = [io_to_emit "lobby"
       (receive_message (UserMessage "lobby" "bob" "hi" 2 (connB, 2)))].
Proof.
  apply (send_message_broadcast two_members connB 2 "lobby" "bob" " hi "
           eq_refl eq_refl eq_refl).
Defined.

Lemma session_matches_run tr : ∀ s,
  session_matches s → orderly_run s tr = true → session_matches (run s tr).
Proof.
  induction tr as [|e tr IH]; intros s Hs Hord; [done|].
  simpl in Hord. apply andb_true_iff in Hord as [He Htr].
  simpl. apply IH; [by apply session_matches_step | done].
Qed.

(** X8. Over orderly events a broadcast to the room of a bound connection
    reaches every Member of that room, the bound connection included: each
    Member's socket is joined to the socket.io room of the same name. *)
Theorem orderly_room_broadcast_reaches_members
    (tr : list event) (c : conn) (room username : string) (ev : out_event) :
  orderly_run init tr = true →
  userSockets (run init tr) !! c = Some (UserData.Make room username) →
  c ∈ recipients (run init tr) (io_to_emit room ev)
  ∧ ∀ m, m ∈ getRoomUsers (run init tr) room →
         Member.socketId m ∈ recipients (run init tr) (io_to_emit room ev).
Proof.
  intros Hord Hb.
  assert (Hatt : ∀ r, attached (run init tr) r).
  { apply attached_orderly; [apply session_matches_init | | done].
    apply attached_init. }
  assert (Hinv : session_matches (run init tr))
    by (by apply session_matches_run; [apply session_matches_init|]).
  split; [|intros m Hm; by apply Hatt].
  apply Hinv in Hb as (m & Hm & <- & _). by apply Hatt.
Qed.

Lemma orderly_room_broadcast_reaches_members_witness :
  connA ∈ recipients two_members (io_to_emit "lobby" (room_users [])).
Proof.
  apply (orderly_room_broadcast_reaches_members
           [join_room connA 0 (join_payload "lobby" "alice");
            join_room connB 1 (join_payload "lobby" "bob")]
           connA "lobby" "alice" (room_users []) eq_refl eq_refl).
Defined.

(** ** Refused joins *)

(** X9. A [join_room] that passes validation is refused as "Username
    already taken in this room." exactly when some Member of the room has
    the requested username up to letter case (compared as received, not
    trimmed); the refusal changes nothing and is sent to the requester
    alone. *)
Theorem join_room_taken_iff
    (s : server) (c : conn) (now : Z) (room username : string) :
  validateUsername (JStr username) = true →
  validateRoom (JStr room) = true →
  (on_join_room s c now (join_payload room username)
   = (s, [socket_emit c (error "Username already taken in this room.")]))
  ↔ ∃ m, m ∈ getRoomUsers s room
         ∧ Js.toLowerCase (Member.username m) = Js.toLowerCase username.
Proof.
  intros Hu Hr. split.
  - destruct (userExistsInRoom s room username) eqn:Htaken.
    + intros _. unfold userExistsInRoom in Htaken.
      apply existsb_exists in Htaken as (m & Hm & Hsame).
      exists m. split; [by apply list_elem_of_In|].
      by apply bool_decide_eq_true in Hsame.
    + unfold on_join_room, join_payload.
      cbn [JoinData.username JoinData.room]. rewrite Hu, Hr. cbn [negb].
      rewrite Htaken. intros Heq. injection Heq as _ Heq. discriminate.
  - intros (m & Hm & Hsame). by apply (join_room_username_taken s c now room username m).
Qed.

Lemma join_room_taken_iff_witness :
  on_join_room one_member connB 1 (join_payload "lobby" "ALICE")
  = (one_member,
     [socket_emit connB (error "Username already taken in this room.")]).
Proof.
  apply (join_room_taken_iff one_member connB 1 "lobby" "ALICE"
           eq_refl eq_refl).
  exists (Member.Make "alice" connA 0). split; [|reflexivity].
  replace (getRoomUsers one_member "lobby") with [Member.Make "alice" connA 0]
    by (vm_compute; reflexivity).
  apply list_elem_of_here.
Defined.

(** ** Typing, leaving and disconnecting *)

(** X10. A [typing] event never changes the state and is never answered
    to its sender, with an error or otherwise: whatever the handler emits
    is one [user_typing] relay, for a connection that holds a binding, to
    the other sockets of the room of that binding; an event naming another
    room, or sent without a binding, produces nothing. *)
Theorem typing_is_silent_relay
    (s : server) (c : conn) (now : Z) (data : option TypingData.t) :
  step s (typing c now data) = s
  ∧ (∀ em, em ∈ snd (handle s (typing c now data)) →
       snd (handle s (typing c now data)) = [em]
       ∧ ∃ room username isTyping userData,
           em = socket_to_emit c room (user_typing username isTyping)
           ∧ data = Some (TypingData.Make (JStr room) (JStr username) isTyping)
           ∧ userSockets s !! c = Some userData
           ∧ UserData.room userData = room
           ∧ c ∉ recipients s em)
  ∧ (∀ room username isTyping,
       data = Some (TypingData.Make (JStr room) username isTyping) →
       (∀ userData, userSockets s !! c = Some userData →
                    UserData.room userData ≠ room) →
       snd (handle s (typing c now data)) = []).
Proof.
  split; [apply on_typing_state|]. split.
  - unfold handle, on_typing. destruct data as [[r u v]|]; simpl;
      [|by intros em ?%elem_of_nil].
    destruct (negb (validateRoom r) || negb (validateUsername u));
      [by intros em ?%elem_of_nil|].
    destruct r as [| | | |room]; try (by intros em ?%elem_of_nil).
    destruct u as [| | | |username]; try (by intros em ?%elem_of_nil).
    destruct (userSockets s !! c) as [userData|];
      [|by intros em ?%elem_of_nil].
    case_bool_decide as Hroom; [by intros em ?%elem_of_nil|].
    intros em ->%list_elem_of_singleton. split; [done|].
    exists room, username, v, userData.
    split; [done|]. split; [done|]. split; [done|]. split.
    + by destruct (decide (UserData.room userData = room)).
    + simpl. rewrite elem_of_difference, elem_of_singleton. tauto.
  - intros room username isTyping -> Hother. unfold handle.
    by rewrite on_typing_other_room.
Qed.

Lemma typing_is_silent_relay_witness :
  snd (handle two_members
         (typing connA 3
            (Some (TypingData.Make (JStr "games") (JStr "alice") (JBool true)))))
  = [].
Proof.
  apply (proj2 (proj2 (typing_is_silent_relay two_members connA 3
           (Some (TypingData.Make (JStr "games") (JStr "alice") (JBool true)))))
           "games" (JStr "alice") (JBool true) eq_refl).
  intros userData Hb. vm_compute in Hb. injection Hb as <-. discriminate.
Defined.

Lemma on_leave_room_registry s c now :
  rooms (fst (on_leave_room s c now)) = rooms (fst (removeUserFromRoom s c))
  ∧ userSockets (fst (on_leave_room s c now))
    = userSockets (fst (removeUserFromRoom s c))
  ∧ messageLimiter (fst (on_leave_room s c now))
    = messageLimiter (fst (removeUserFromRoom s c)).
Proof.
  unfold on_leave_room, removeUserFromRoom. simpl.
  by destruct (userSockets s !! c) as [userData|] eqn:Hb.
Qed.

Lemma on_disconnect_registry s c now :
  rooms (fst (on_disconnect s c now)) = rooms (fst (removeUserFromRoom s c))
  ∧ userSockets (fst (on_disconnect s c now))
    = userSockets (fst (removeUserFromRoom s c))
  ∧ messageLimiter (fst (on_disconnect s c now))
    = messageLimiter (fst (removeUserFromRoom s c)).
Proof.
  unfold on_disconnect, removeUserFromRoom. simpl.
  by destruct (userSockets s !! c) as [userData|] eqn:Hb.
Qed.

Lemma on_leave_room_bound s c now userData :
  userSockets s !! c = Some userData →
  snd (on_leave_room s c now)
  = [io_to_emit (UserData.room userData)
       (receive_message
          (SystemMessage (UserData.username userData +:+ " left the room") now));
     io_to_emit (UserData.room userData)
       (user_list_update
          (usernames (getRoomUsers (fst (on_leave_room s c now))
                        (UserData.room userData))))].
Proof. intros Hb. unfold on_leave_room. by rewrite Hb. Qed.

Lemma on_disconnect_bound s c now userData :
  userSockets s !! c = Some userData →
  snd (on_disconnect s c now)
  = io_to_emit (UserData.room userData)
      (receive_message
         (SystemMessage (UserData.username userData +:+ " left the room") now))
    :: (if 0 <? Z.of_nat (length (getRoomUsers (fst (on_disconnect s c now))
                                    (UserData.room userData)))
        then [io_to_emit (UserData.room userData)
                (user_list_update
                   (usernames (getRoomUsers (fst (on_disconnect s c now))
                                 (UserData.room userData))))]
        else []).
Proof.
  intros Hb. unfold on_disconnect, removeUserFromRoom.
  change (userSockets (socket_leave_all s c)) with (userSockets s).
  by rewrite Hb.
Qed.

(** X11. [disconnect] and [leave_room] do the same to the three
    registries: both remove the connection's entry from the room of its
    binding, its binding and its rate window, and both do nothing to them
    for a connection without a binding, which is answered by no event at
    all. For a bound connection they emit the same events whenever
    Members remain in the room after the removal; the socket of a
    disconnecting connection is out of every socket.io room. *)
Theorem disconnect_agrees_with_leave_room (s : server) (c : conn) (now : Z) :
  rooms (fst (on_disconnect s c now)) = rooms (fst (on_leave_room s c now))
  ∧ userSockets (fst (on_disconnect s c now))
    = userSockets (fst (on_leave_room s c now))
  ∧ messageLimiter (fst (on_disconnect s c now))
    = messageLimiter (fst (on_leave_room s c now))
  ∧ (∀ room, c ∉ sockets_in (fst (on_disconnect s c now)) room)
  ∧ (userSockets s !! c = None →
     on_leave_room s c now = (s, [])
     ∧ snd (on_disconnect s c now) = []
     ∧ rooms (fst (on_disconnect s c now)) = rooms s)
  ∧ (∀ userData,
       userSockets s !! c = Some userData →
       getRoomUsers (fst (on_leave_room s c now)) (UserData.room userData) ≠ [] →
       snd (on_disconnect s c now) = snd (on_leave_room s c now)).
Proof.
  destruct (on_leave_room_registry s c now) as (Hr & Hu & Hl).
  destruct (on_disconnect_registry s c now) as (Hr' & Hu' & Hl').
  split; [congruence|]. split; [congruence|]. split; [congruence|].
  split.
  { intros room. unfold on_disconnect.
    assert (Hout : c ∉ sockets_in
                         (fst (removeUserFromRoom (socket_leave_all s c) c)) room).
    { rewrite sockets_in_removeUserFromRoom, sockets_in_socket_leave_all.
      rewrite elem_of_difference, elem_of_singleton. tauto. }
    by destruct (removeUserFromRoom (socket_leave_all s c) c) as [s1 [ud|]]. }
  split.
  { intros Hb. unfold on_leave_room, on_disconnect, removeUserFromRoom.
    simpl. by rewrite Hb. }
  intros userData Hb Hrest.
  assert (Hsame : getRoomUsers (fst (on_disconnect s c now))
                    (UserData.room userData)
                  = getRoomUsers (fst (on_leave_room s c now))
                      (UserData.room userData)).
  { unfold getRoomUsers. congruence. }
  rewrite (on_disconnect_bound s c now userData Hb),
    (on_leave_room_bound s c now userData Hb), Hsame.
  destruct (getRoomUsers (fst (on_leave_room s c now)) (UserData.room userData));
    done.
Qed.

Lemma disconnect_agrees_with_leave_room_witness :
  snd (on_disconnect two_members connA 2) = snd (on_leave_room two_members connA 2).
Proof.
  destruct (disconnect_agrees_with_leave_room two_members connA 2)
    as (_ & _ & _ & _ & _ & Hbound).
  apply (Hbound (UserData.Make "lobby" "alice")).
  - reflexivity.
  - vm_compute. discriminate.
Defined.

(** ** Joining and leaving again *)

Lemma filter_not_present c users :
  present c users = false →
  filter (λ u, Member.socketId u ≠ c) users = users.
Proof.
  intros Hp. induction users as [|m l IH]; [done|].
  unfold present in Hp. simpl in Hp. apply orb_false_iff in Hp as [Hm Hl].
  apply bool_decide_eq_false in Hm.
  rewrite filter_cons_True by done. f_equal. by apply IH.
Qed.

(** X12. Joining and leaving undoes itself on the registries: when a
    connection without binding or entry joins a room under a trimmed room
    id and then sends [leave_room], the room map and the binding map are
    what they were before the join; a room the join created is deleted
    again. *)
Theorem join_then_leave_restores_registry
    (s : server) (c : conn) (t1 t2 : Z) (room username : string) :
  validateUsername (JStr username) = true →
  validateRoom (JStr room) = true →
  userExistsInRoom s room username = false →
  userSockets s !! c = None →
  present c (getRoomUsers s room) = false →
  Js.trim room = room →
  rooms s !! room ≠ Some [] →
  let s' := run s [join_room c t1 (join_payload room username);
                   leave_room c t2] in
  rooms s' = rooms s ∧ userSockets s' = userSockets s.
Proof.
  intros Hu Hr Hfree Hb Hp Htrim Hne.
  set (s1 := addUserToRoom (socket_join s c room) room username c t1).
  assert (Hrun : run s [join_room c t1 (join_payload room username);
                        leave_room c t2]
                 = fst (on_leave_room s1 c t2)).
  { unfold run. simpl. unfold step, handle. f_equal.
    unfold on_join_room, join_payload.
    cbn [JoinData.username JoinData.room]. rewrite Hu, Hr. cbn [negb].
    by rewrite Hfree. }
  cbv zeta. rewrite Hrun. clear Hrun.
  assert (Hb1 : userSockets s1 !! c
                = Some (UserData.Make room (Js.trim username))).
  { subst s1. rewrite userSockets_addUserToRoom, lookup_insert_eq.
    by rewrite Htrim. }
  assert (Hr1 : rooms s1
                = <[room := getRoomUsers s room ++ [new_member username c t1]]>
                    (rooms s)).
  { subst s1. rewrite rooms_addUserToRoom.
    change (getRoomUsers (socket_join s c room)) with (getRoomUsers s).
    by rewrite Hp. }
  destruct (on_leave_room_registry s1 c t2) as (-> & -> & _).
  unfold removeUserFromRoom. rewrite Hb1. cbn [fst rooms userSockets UserData.room].
  split.
  - rewrite Hr1, lookup_insert_eq, filter_app, filter_not_present by done.
    rewrite filter_cons_False by (intros Hc; by apply Hc).
    rewrite filter_nil, app_nil_r.
    unfold getRoomUsers in *.
    destruct (rooms s !! room) as [[|m l]|] eqn:Hroom; simpl.
    + done.
    + rewrite insert_insert_eq. by apply insert_id.
    + rewrite delete_insert_eq. by apply delete_id.
  - subst s1. rewrite userSockets_addUserToRoom.
    change (userSockets (socket_join s c room)) with (userSockets s).
    rewrite delete_insert_eq. by apply delete_id.
Qed.

Lemma join_then_leave_restores_registry_witness :
  rooms (run one_member [join_room connB 1 (join_payload "lobby" "bob");
                         leave_room connB 2])
  = rooms one_member.
Proof.
  apply (join_then_leave_restores_registry one_member connB 1 2 "lobby" "bob");
    try reflexivity.
  vm_compute. discriminate.
Defined.

(** ** One connection's events and the others *)

Lemma entries_of_other c c' users :
  c ≠ c' →
  entries_of c' (filter (λ u, Member.socketId u ≠ c) users) = entries_of c' users.
Proof.
  intros Hne. unfold entries_of. rewrite list_filter_filter.
  apply list_filter_iff. intros u. split; [tauto|].
  intros Hu. split; [done | congruence].
Qed.

(** X13. An event of one connection never touches what the registries
    hold for another: the other connection's binding, its rate window and
    its Member entries in every room, in their order, are the same after
    the event as before. *)
Theorem events_leave_other_connections_alone
    (s : server) (e : event) (c' : conn) :
  c' ≠ conn_of e →
  userSockets (step s e) !! c' = userSockets s !! c'
  ∧ messageLimiter (step s e) !! c' = messageLimiter s !! c'
  ∧ ∀ room, entries_of c' (getRoomUsers (step s e) room)
            = entries_of c' (getRoomUsers s room).
Proof.
  intros Hne.
  assert (Hremove : ∀ s0 c,
            c' ≠ c →
            rooms s0 = rooms s → userSockets s0 = userSockets s →
            messageLimiter s0 = messageLimiter s →
            userSockets (fst (removeUserFromRoom s0 c)) !! c'
            = userSockets s !! c'
            ∧ messageLimiter (fst (removeUserFromRoom s0 c)) !! c'
              = messageLimiter s !! c'
            ∧ ∀ room, entries_of c' (getRoomUsers (fst (removeUserFromRoom s0 c)) room)
                      = entries_of c' (getRoomUsers s room)).
  { intros s0 c Hc Hr Hu Hl.
    assert (Hg : ∀ room, getRoomUsers s0 room = getRoomUsers s room)
      by (intros room; unfold getRoomUsers; by rewrite Hr).
    destruct (userSockets s0 !! c) as [userData|] eqn:Hb.
    - split; [|split].
      + rewrite userSockets_removeUserFromRoom, lookup_delete_ne by done.
        by rewrite Hu.
      + unfold removeUserFromRoom. rewrite Hb. simpl.
        rewrite lookup_delete_ne by done. by rewrite Hl.
      + intros room.
        rewrite (getRoomUsers_removeUserFromRoom s0 c userData) by done.
        rewrite Hg. case_decide; [|done]. by apply entries_of_other.
    - rewrite removeUserFromRoom_unbound by done. simpl.
      rewrite Hu, Hl. split; [done|]. split; [done|].
      intros room. by rewrite Hg. }
  destruct e as [c now d|c now d|c now d|c now|c now]; simpl in Hne;
    unfold step, handle.
  - destruct (on_join_room_state s c now d)
      as [-> | (room & username & -> & ->)]; [done|].
    rewrite userSockets_addUserToRoom, lookup_insert_ne by done.
    split; [done|]. split; [done|]. intros r.
    rewrite getRoomUsers_addUserToRoom.
    change (getRoomUsers (socket_join s c room)) with (getRoomUsers s).
    case_decide as Hr; [subst r|done].
    destruct (present c (getRoomUsers s room)); [done|].
    unfold entries_of. rewrite filter_app.
    rewrite (filter_cons_False _ (new_member username c now)) by (simpl; congruence).
    by rewrite filter_nil, app_nil_r.
  - rewrite on_send_message_state.
    destruct (checkRateLimit_frame s c now) as (Hr & -> & _).
    split; [done|]. split.
    + pose proof (stored_checkRateLimit_other s c c' now) as Hst.
      destruct (fst (checkRateLimit s c now)) eqn:Hok.
      * rewrite checkRateLimit_admitted, lookup_insert_ne by done. done.
      * by rewrite checkRateLimit_rejected.
    + intros room. unfold getRoomUsers. by rewrite Hr.
  - by rewrite on_typing_state.
  - unfold on_leave_room.
    destruct (userSockets s !! c) as [userData|] eqn:Hb; [|done].
    cbn [fst]. by apply Hremove.
  - unfold on_disconnect.
    pose proof (Hremove (socket_leave_all s c) c Hne eq_refl eq_refl eq_refl)
      as Hrem.
    by destruct (removeUserFromRoom (socket_leave_all s c) c) as [s1 [ud|]].
Qed.

Lemma events_leave_other_connections_alone_witness :
  userSockets (step two_members (disconnect connA 2)) !! connB
  = userSockets two_members !! connB.
Proof.
  apply (events_leave_other_connections_alone two_members (disconnect connA 2)
           connB).
  discriminate.
Defined.

(** ** Errors *)

(** X14. Every [error] event goes to the socket whose event caused it
    and to no other, as the only event emitted for that event; its text
    is one of the ten messages of the handlers; and the event that drew it
    changed neither the room map, nor the binding map, nor the socket.io
    rooms. *)
Theorem errors_go_to_the_sender_only
    (s : server) (e : event) (em : emission) (msg : string) :
  em ∈ snd (handle s e) →
  emitted em = error msg →
  em = socket_emit (conn_of e) (error msg)
  ∧ snd (handle s e) = [em]
  ∧ recipients (step s e) em = {[conn_of e]}
  ∧ is_Some (classify msg)
  ∧ rooms (step s e) = rooms s
  ∧ userSockets (step s e) = userSockets s
  ∧ adapter (step s e) = adapter s.
Proof.
  assert (Hdone : ∀ s' c text,
            is_Some (classify text) →
            rooms s' = rooms s → userSockets s' = userSockets s →
            adapter s' = adapter s →
            em ∈ [socket_emit c (error text)] → emitted em = error msg →
            em = socket_emit c (error msg)
            ∧ [socket_emit c (error text)] = [em]
            ∧ recipients s' em = {[c]}
            ∧ is_Some (classify msg)
            ∧ rooms s' = rooms s ∧ userSockets s' = userSockets s
            ∧ adapter s' = adapter s).
  { intros s' c text Hcl Hr Hu Ha ->%list_elem_of_singleton [= <-].
    by repeat split. }
  destruct e as [c now d|c now d|c now d|c now|c now]; unfold step, handle;
    cbn [conn_of].
  - unfold on_join_room. destruct d as [[r u]|]; simpl;
      [|by apply Hdone].
    destruct (validateUsername u); simpl; [|by apply Hdone].
    destruct (validateRoom r); simpl; [|by apply Hdone].
    destruct r as [| | | |room]; try (by apply Hdone).
    destruct u as [| | | |username]; try (by apply Hdone).
    destruct (userExistsInRoom s room username); [by apply Hdone|].
    cbn [snd]. rewrite !elem_of_cons, elem_of_nil.
    intros [-> | [-> | [-> | []]]]; discriminate.
  - pose proof (on_send_message_state s c now d) as Hst.
    destruct (checkRateLimit_frame s c now) as (Hr & Hu & Ha).
    rewrite <- Hst in Hr, Hu, Ha. revert Hr Hu Ha. clear Hst.
    unfold on_send_message.
    destruct (checkRateLimit s c now) as [[] s1]; cbn [negb fst snd];
      [|by apply Hdone].
    destruct d as [[r a m]|]; [|by apply Hdone]. simpl.
    destruct (validateRoom r); simpl; [|by apply Hdone].
    destruct (validateUsername a); simpl; [|by apply Hdone].
    destruct (validateMessage m); simpl; [|by apply Hdone].
    destruct r as [| | | |room]; try (by apply Hdone).
    destruct a as [| | | |author]; try (by apply Hdone).
    destruct m as [| | | |message]; try (by apply Hdone).
    destruct (userSockets s1 !! c) as [userData|]; [|by apply Hdone].
    destruct (bool_decide (UserData.room userData ≠ room)
              || bool_decide (UserData.username userData ≠ author));
      [by apply Hdone|].
    intros _ _ _ ->%list_elem_of_singleton. discriminate.
  - intros Hem Herr.
    destruct (on_typing_relay s c d em Hem)
      as (room & username & v & ud & -> & _).
    discriminate.
  - unfold on_leave_room. destruct (userSockets s !! c) as [userData|];
      simpl; [|by intros ?%elem_of_nil].
    rewrite !elem_of_cons, elem_of_nil. intros [-> | [-> | []]]; discriminate.
  - intros Hem Herr. exfalso. revert Hem. unfold on_disconnect.
    destruct (removeUserFromRoom (socket_leave_all s c) c) as [s1 [ud|]];
      simpl; [|by intros ?%elem_of_nil].
    case_match; rewrite !elem_of_cons, elem_of_nil;
      intros Hcases; destruct_or!; subst em; try discriminate; done.
Qed.

Lemma errors_go_to_the_sender_only_witness :
  recipients (step init (join_room connA 0 None))
    (socket_emit connA (error "Failed to join room"))
  = {[connA]}.
Proof.
  apply (errors_go_to_the_sender_only init (join_room connA 0 None)
           (socket_emit connA (error "Failed to join room"))
           "Failed to join room").
  - apply list_elem_of_here.
  - reflexivity.
Defined.

(** ** Status queries *)

(** X15. [/api/rooms] is a faithful projection of the room map: it has
    exactly one entry per room of the registry, as many entries as
    [/api/health] reports active rooms, and each entry carries the number
    of Members of the room and their usernames in join order. *)
Theorem api_rooms_projects_registry (s : server) (now : Z) :
  (∀ room n names,
     (room, n, names) ∈ api_rooms s
     ↔ ∃ users, rooms s !! room = Some users
                ∧ n = length users ∧ names = usernames users)
  ∧ NoDup ((λ entry : string * nat * list string, entry.1.1) <$> api_rooms s)
  ∧ length (api_rooms s) = activeRooms (api_health s now)
  ∧ ∀ room n names, (room, n, names) ∈ api_rooms s → length names = n.
Proof.
  assert (Hiff : ∀ room n names,
            (room, n, names) ∈ api_rooms s
            ↔ ∃ users, rooms s !! room = Some users
                       ∧ n = length users ∧ names = usernames users).
  { intros room n names. unfold api_rooms. rewrite list_elem_of_fmap. split.
    - intros ([r users] & Heq & Hin). injection Heq as -> -> ->.
      apply elem_of_map_to_list in Hin. by exists users.
    - intros (users & Hr & -> & ->). exists (room, users).
      split; [done | by apply elem_of_map_to_list]. }
  split; [done|]. split; [|split].
  - unfold api_rooms. rewrite <- list_fmap_compose.
    erewrite list_fmap_ext; [apply NoDup_fst_map_to_list|].
    by intros i [r users] _.
  - unfold api_rooms. simpl. by rewrite length_fmap, length_map_to_list.
  - intros room n names (users & _ & -> & ->)%Hiff.
    unfold usernames. apply length_map.
Qed.

Lemma api_rooms_projects_registry_witness :
  length ["alice"; "bob"] = 2%nat.
Proof.
  destruct (api_rooms_projects_registry two_members 0) as (_ & _ & _ & Hlen).
  apply (Hlen "lobby").
  replace (api_rooms two_members)
    with [("lobby", 2%nat, ["alice"; "bob"])] by (vm_compute; reflexivity).
  apply list_elem_of_here.
Defined.

Lemma listed_members_total s : listed_members s = members_total (rooms s).
Proof.
  unfold listed_members, members_total, api_rooms.
  rewrite <- list_fmap_compose. f_equal.
  apply list_fmap_ext. by intros i [r users] _.
Qed.

Lemma members_total_insert_None m room users :
  m !! room = None →
  members_total (<[room := users]> m) = (length users + members_total m)%nat.
Proof.
  intros Hnone. unfold members_total.
  by rewrite (map_to_list_insert m room users Hnone).
Qed.

Lemma members_total_delete m room users :
  m !! room = Some users →
  members_total m = (length users + members_total (delete room m))%nat.
Proof.
  intros Hsome. unfold members_total.
  by rewrite <- (map_to_list_delete m room users Hsome).
Qed.

Lemma members_total_insert_Some m room old users :
  m !! room = Some old →
  (members_total (<[room := users]> m) + length old
   = length users + members_total m)%nat.
Proof.
  intros Hsome. rewrite <- (insert_delete_eq m room users).
  rewrite members_total_insert_None by apply lookup_delete_eq.
  rewrite (members_total_delete m room old Hsome). lia.
Qed.

Lemma members_total_ge m :
  (∀ room users, m !! room = Some users → users ≠ []) →
  (size m ≤ members_total m)%nat.
Proof.
  induction m as [|room users m Hnone IH] using map_ind; intros Hne.
  - by rewrite map_size_empty.
  - rewrite map_size_insert_None, members_total_insert_None by done.
    assert (users ≠ []) by (apply (Hne room); by rewrite lookup_insert_eq).
    assert ((size m ≤ members_total m)%nat).
    { apply IH. intros r us Hr. apply (Hne r).
      rewrite lookup_insert_ne; [done|]. intros ->. congruence. }
    destruct users; [done | simpl; lia].
Qed.

Lemma filter_removes_one c (users : list Member.t) m :
  NoDup (map Member.socketId users) →
  m ∈ users → Member.socketId m = c →
  S (length (filter (λ u, Member.socketId u ≠ c) users)) = length users.
Proof.
  intros Hnd Hm Hc. induction users as [|u l IH]; [by apply elem_of_nil in Hm|].
  simpl in Hnd. apply NoDup_cons in Hnd as [Hu Hnd].
  apply elem_of_cons in Hm as [<- | Hm].
  - rewrite filter_cons_False by (intros Hne; by apply Hne).
    rewrite filter_not_present; [done|].
    apply not_true_is_false. intros (m' & Hm' & Hc')%elem_of_present.
    apply Hu. apply list_elem_of_fmap. exists m'. split; [congruence | done].
  - rewrite filter_cons_True.
    + simpl. f_equal. by apply IH.
    + intros Heq. apply Hu. apply list_elem_of_fmap. exists m.
      split; [congruence | done].
Qed.

Lemma bindings_count_step s e :
  session_matches s → one_entry_per_connection s → orderly s e = true →
  size (userSockets s) = members_total (rooms s) →
  size (userSockets (step s e)) = members_total (rooms (step s e)).
Proof.
  intros Hinv Hnd Hord Hcount.
  destruct (step_registry s e)
    as [[-> ->] | [(c & now & r & u & -> & _ & _ & _ & -> & ->)
                  | (c & -> & ->)]]; [done| |].
  - simpl in Hord. rewrite !andb_true_iff, !bool_decide_eq_true in Hord.
    destruct Hord as [[Hfree _] _].
    assert (Habsent : present c (getRoomUsers s r) = false).
    { apply not_true_is_false. intros (m & Hm & Hc)%elem_of_present.
      assert (Hmem : is_member s c r (Member.username m)) by (by exists m).
      apply Hinv in Hmem. congruence. }
    rewrite userSockets_addUserToRoom, rooms_addUserToRoom, Habsent.
    rewrite map_size_insert_None by done.
    unfold getRoomUsers. destruct (rooms s !! r) as [users|] eqn:Hr; simpl.
    + pose proof (members_total_insert_Some
                    (rooms s) r users (users ++ [new_member u c now]) Hr) as Ht.
      rewrite length_app in Ht. simpl in Ht. lia.
    + rewrite members_total_insert_None by done. simpl. lia.
  - destruct (userSockets s !! c) as [userData|] eqn:Hb;
      [|by rewrite removeUserFromRoom_unbound].
    rewrite userSockets_removeUserFromRoom.
    unfold removeUserFromRoom. rewrite Hb. cbn [fst rooms].
    assert (Hmem : is_member s c (UserData.room userData)
                     (UserData.username userData)).
    { apply Hinv. by destruct userData. }
    destruct Hmem as (m & Hm & Hc & _). unfold getRoomUsers in Hm.
    specialize (Hnd (UserData.room userData)). unfold getRoomUsers in Hnd.
    destruct (rooms s !! UserData.room userData) as [members|] eqn:Hr;
      [|by apply elem_of_nil in Hm].
    simpl in Hm, Hnd.
    pose proof (filter_removes_one c members m Hnd Hm Hc) as Hone.
    pose proof (map_size_delete_Some c (userSockets s)
                  (ltac:(by eexists) : is_Some (userSockets s !! c))) as Hsize.
    pose proof (members_total_delete (rooms s) _ members Hr) as Hdel.
    destruct (filter (λ u, Member.socketId u ≠ c) members) as [|m' l] eqn:Hf.
    + simpl in *. lia.
    + replace (Z.of_nat (length (m' :: l)) =? 0) with false
        by (symmetry; apply Z.eqb_neq; simpl; lia).
      pose proof (members_total_insert_Some (rooms s) _ members (m' :: l) Hr).
      simpl in *. lia.
Qed.

Lemma bindings_count_run tr : ∀ s,
  session_matches s → one_entry_per_connection s → orderly_run s tr = true →
  size (userSockets s) = members_total (rooms s) →
  size (userSockets (run s tr)) = members_total (rooms (run s tr)).
Proof.
  induction tr as [|e tr IH]; intros s Hinv Hnd Hord Hcount; [done|].
  simpl in Hord. apply andb_true_iff in Hord as [He Htr]. simpl.
  apply IH; [by apply session_matches_step
            | by apply one_entry_per_connection_step | done
            | by apply bindings_count_step].
Qed.

(** X16. Over orderly events the two status endpoints agree: the number
    of active users of [/api/health], the size of the binding map, is the
    sum of the user counts of [/api/rooms], and it is never below the
    number of active rooms. *)
Theorem orderly_health_counts_members (tr : list event) (now : Z) :
  orderly_run init tr = true →
  activeUsers (api_health (run init tr) now) = listed_members (run init tr)
  ∧ (activeRooms (api_health (run init tr) now)
     ≤ activeUsers (api_health (run init tr) now))%nat.
Proof.
  intros Hord.
  assert (Hcount : size (userSockets (run init tr))
                   = members_total (rooms (run init tr))).
  { apply bindings_count_run; [apply session_matches_init
                              | apply one_entry_per_connection_init
                              | done | done]. }
  simpl. rewrite listed_members_total. split; [done|].
  rewrite Hcount. apply members_total_ge.
  apply run_invariant; [apply rooms_inhabited_init|].
  intros s e. apply rooms_inhabited_step.
Qed.

Lemma orderly_health_counts_members_witness :
  activeUsers (api_health (run init orderly_trace) 6)
  = listed_members (run init orderly_trace).
Proof.
  apply (orderly_health_counts_members orderly_trace 6). reflexivity.
Defined.

(** ** Client and server *)

Lemma validate_trimmed_length s :
  (if bool_decide (s = EmptyString) then false
   else (2 <=? Js.length (Js.trim s)) && (Js.length (Js.trim s) <=? 20))
  = (2 <=? Js.length (Js.trim s)) && (Js.length (Js.trim s) <=? 20).
Proof. case_bool_decide as Hs; [by subst s | done]. Qed.

Lemma validateInputs_agrees username room :
  Client.validateInputs username room = None
  ↔ validateUsername (JStr username) = true ∧ validateRoom (JStr room) = true.
Proof.
  unfold Client.validateInputs, validateUsername, validateRoom,
    MIN_USERNAME_LENGTH, MAX_USERNAME_LENGTH, MIN_ROOM_LENGTH, MAX_ROOM_LENGTH.
  rewrite !validate_trimmed_length, !andb_true_iff, !Z.leb_le.
  case_bool_decide as Hu.
  { rewrite Hu. split; [done|]. intros [[Hlen _] _]. by vm_compute in Hlen. }
  destruct (Js.length (Js.trim username) <? 2) eqn:Hu1; simpl.
  { apply Z.ltb_lt in Hu1. split; [done | lia]. }
  destruct (20 <? Js.length (Js.trim username)) eqn:Hu2; simpl.
  { apply Z.ltb_lt in Hu2. split; [done | lia]. }
  apply Z.ltb_ge in Hu1, Hu2.
  case_bool_decide as Hr.
  { rewrite Hr. split; [done|]. intros [_ [Hlen _]]. by vm_compute in Hlen. }
  destruct (Js.length (Js.trim room) <? 2) eqn:Hr1; simpl.
  { apply Z.ltb_lt in Hr1. split; [done | lia]. }
  destruct (20 <? Js.length (Js.trim room)) eqn:Hr2; simpl.
  { apply Z.ltb_lt in Hr2. split; [done | lia]. }
  apply Z.ltb_ge in Hr1, Hr2. split; [lia | done].
Qed.

(** X17. The client's [validateInputs] and the server's validators accept
    the same inputs: the client sends a [join_room] exactly when the server
    would accept the username and room as typed, and what it sends is the
    trimmed pair, which the server's validators accept as well; so a join
    sent by this client is never answered with an invalid-input error,
    and it meets the trimming condition of orderly events. *)
Theorem client_join_passes_server_validation (username room : string) :
  (Client.validateInputs username room = None
   ↔ validateUsername (JStr username) = true ∧ validateRoom (JStr room) = true)
  ∧ (Client.validateInputs username room ≠ None →
     Client.joinRoom username room = [])
  ∧ (Client.validateInputs username room = None →
     Client.joinRoom username room
     = [Client.emit_join_room
          (JoinData.Make (JStr (Js.trim room)) (JStr (Js.trim username)))]
     ∧ validateUsername (JStr (Js.trim username)) = true
     ∧ validateRoom (JStr (Js.trim room)) = true
     ∧ Js.trim (Js.trim username) = Js.trim username
     ∧ Js.trim (Js.trim room) = Js.trim room).
Proof.
  split; [apply validateInputs_agrees|]. split.
  - unfold Client.joinRoom. by destruct (Client.validateInputs username room).
  - intros Hok. unfold Client.joinRoom. rewrite Hok. split; [done|].
    apply validateInputs_agrees in Hok as [Hu Hr].
    by rewrite validateUsername_trim, validateRoom_trim, !trim_idemp.
Qed.

Lemma client_join_passes_server_validation_witness :
  Client.joinRoom " alice " "lobby"
  = [Client.emit_join_room (JoinData.Make (JStr "lobby") (JStr "alice"))].
Proof.
  apply (client_join_passes_server_validation " alice " "lobby"). reflexivity.
Defined.

(** X18. The client sends its messages under the username and room as
    typed, while its join bound the trimmed ones. For a client whose join
    was accepted, a non-blank message of at most 500 characters that the
    rate limiter admits is broadcast when the typed username and room
    carry no surrounding white space, and is refused as "Unauthorized
    message" when either of them does. *)
Theorem client_messages_need_trimmed_names
    (s : server) (c : conn) (now : Z) (username room message : string) :
  Client.validateInputs username room = None →
  userSockets s !! c = Some (UserData.Make (Js.trim room) (Js.trim username)) →
  Js.trim message ≠ EmptyString →
  Js.length (Js.trim message) ≤ 500 →
  fst (checkRateLimit s c now) = true →
  ∃ d rest,
    Client.sendMessage username room message = Client.emit_send_message d :: rest
    ∧ (Js.trim username = username ∧ Js.trim room = room →
       snd (handle s (Client.arrives c now (Client.emit_send_message d)))
       = [io_to_emit room
            (receive_message
               (UserMessage room username (Js.trim message) now (c, now)))])
    ∧ (Js.trim username ≠ username ∨ Js.trim room ≠ room →
       snd (handle s (Client.arrives c now (Client.emit_send_message d)))
       = [socket_emit c (error "Unauthorized message")]).
Proof.
  intros Hvalid Hb Hmsg Hlen Hok.
  apply validateInputs_agrees in Hvalid as [Hu Hr].
  eexists _, _. split.
  { unfold Client.sendMessage. by rewrite bool_decide_eq_false_2. }
  assert (Hm : validateMessage (JStr (Js.trim message)) = true).
  { unfold validateMessage, MAX_MESSAGE_LENGTH.
    rewrite bool_decide_eq_false_2 by done. rewrite trim_idemp.
    apply andb_true_iff. rewrite Z.ltb_lt, Z.leb_le. split; [|done].
    unfold Js.length. destruct (Js.trim message); [done | simpl; lia]. }
  cbn [Client.arrives handle].
  rewrite on_send_message_reply by done.
  cbn [MessageData.room MessageData.author MessageData.message].
  rewrite Hr, Hu, Hm. cbn [negb]. unfold bound_as. rewrite Hb.
  cbn [UserData.room UserData.username]. split.
  - intros [Htu Htr]. rewrite Htu, Htr, !bool_decide_eq_true_2 by done.
    cbn [andb]. by rewrite trim_idemp.
  - intros Hpad.
    destruct (decide (Js.trim room = room)) as [Htr|Htr].
    + destruct Hpad as [Htu|]; [|done].
      rewrite (bool_decide_eq_false_2 (JStr (Js.trim username) = JStr username))
        by congruence.
      by rewrite andb_false_r.
    + by rewrite (bool_decide_eq_false_2 (JStr (Js.trim room) = JStr room))
        by congruence.
Qed.

Lemma client_messages_need_trimmed_names_witness :
  ∃ d rest,
    Client.sendMessage " alice " "lobby" "hi" = Client.emit_send_message d :: rest
    ∧ (Js.trim " alice " = " alice " ∧ Js.trim "lobby" = "lobby" →
       snd (handle one_member (Client.arrives connA 5 (Client.emit_send_message d)))
       = [io_to_emit "lobby"
            (receive_message
               (UserMessage "lobby" " alice " (Js.trim "hi") 5 (connA, 5)))])
    ∧ (Js.trim " alice " ≠ " alice " ∨ Js.trim "lobby" ≠ "lobby" →
       snd (handle one_member (Client.arrives connA 5 (Client.emit_send_message d)))
       = [socket_emit connA (error "Unauthorized message")]).
Proof.
  apply (client_messages_need_trimmed_names one_member connA 5
           " alice " "lobby" "hi"); try reflexivity.
  - discriminate.
  - vm_compute. discriminate.
Defined.

(** ** What a join and a departure do *)

(** X19. A successful [join_room] binds the connection to the trimmed
    room id and username and joins its socket to the room as received;
    it is never an implicit leave: the Member entries and the socket.io
    membership of every other room, the connection's own earlier entries
    among them, the bindings of the other connections and every rate
    window are what they were. *)
Theorem successful_join_binds
    (s : server) (c : conn) (now : Z) (room username : string) :
  validateUsername (JStr username) = true →
  validateRoom (JStr room) = true →
  userExistsInRoom s room username = false →
  let s' := step s (join_room c now (join_payload room username)) in
  userSockets s' !! c = Some (UserData.Make (Js.trim room) (Js.trim username))
  ∧ c ∈ sockets_in s' room
  ∧ (∀ r, r ≠ room →
          getRoomUsers s' r = getRoomUsers s r
          ∧ sockets_in s' r = sockets_in s r)
  ∧ (∀ c', c' ≠ c → userSockets s' !! c' = userSockets s !! c')
  ∧ messageLimiter s' = messageLimiter s.
Proof.
  intros Hu Hr Hfree. cbv zeta.
  assert (Hstep : step s (join_room c now (join_payload room username))
                  = addUserToRoom (socket_join s c room) room username c now).
  { unfold step, handle, on_join_room, join_payload.
    cbn [JoinData.username JoinData.room]. rewrite Hu, Hr. cbn [negb].
    by rewrite Hfree. }
  rewrite Hstep.
  split; [by rewrite userSockets_addUserToRoom, lookup_insert_eq|].
  split.
  { rewrite sockets_in_addUserToRoom, sockets_in_socket_join, decide_True by done.
    apply elem_of_union. left. by apply elem_of_singleton. }
  split.
  { intros r Hne. rewrite getRoomUsers_addUserToRoom, sockets_in_addUserToRoom,
      sockets_in_socket_join, !decide_False by done. done. }
  split; [|done].
  intros c' Hne. by rewrite userSockets_addUserToRoom, lookup_insert_ne.
Qed.

Lemma successful_join_binds_witness :
  getRoomUsers (run init rejoin_trace) "lobby" = getRoomUsers one_member "lobby".
Proof.
  destruct (successful_join_binds one_member connA 1 "games" "alice"
              eq_refl eq_refl eq_refl) as (_ & _ & Hother & _).
  apply (Hother "lobby"). discriminate.
Defined.

Lemma sockets_in_on_leave_room s c now userData r :
  userSockets s !! c = Some userData →
  sockets_in (fst (on_leave_room s c now)) r
  = if decide (r = UserData.room userData)
    then sockets_in s (UserData.room userData) ∖ {[c]}
    else sockets_in s r.
Proof.
  intros Hb. unfold on_leave_room. rewrite Hb. cbn [fst].
  by rewrite sockets_in_removeUserFromRoom, sockets_in_socket_leave.
Qed.

Lemma getRoomUsers_on_leave_room s c now userData r :
  userSockets s !! c = Some userData →
  getRoomUsers (fst (on_leave_room s c now)) r
  = if decide (r = UserData.room userData)
    then filter (λ u, Member.socketId u ≠ c) (getRoomUsers s r)
    else getRoomUsers s r.
Proof.
  intros Hb. unfold getRoomUsers at 1.
  destruct (on_leave_room_registry s c now) as (-> & _).
  by apply getRoomUsers_removeUserFromRoom.
Qed.

(** X20. When a bound connection sends [leave_room], the room of its
    binding loses exactly the entries of that connection, the others
    keeping their order; the first event emitted is the system message
    "{username} left the room", followed by the member list without the
    leaver; both go to the room the socket has already left, so the
    leaver receives neither, while every remaining Member whose socket
    was joined to the room receives both. *)
Theorem leave_room_notifies_the_others
    (s : server) (c : conn) (now : Z) (userData : UserData.t) :
  userSockets s !! c = Some userData →
  let room := UserData.room userData in
  let s' := fst (on_leave_room s c now) in
  let remaining := filter (λ u, Member.socketId u ≠ c) (getRoomUsers s room) in
  getRoomUsers s' room = remaining
  ∧ snd (on_leave_room s c now)
    = [io_to_emit room
         (receive_message
            (SystemMessage (UserData.username userData +:+ " left the room") now));
       io_to_emit room (user_list_update (usernames remaining))]
  ∧ (∀ em, em ∈ snd (on_leave_room s c now) →
       (c ∉ recipients s' em)
       ∧ (attached s room →
          ∀ m, m ∈ remaining → Member.socketId m ∈ recipients s' em)).
Proof.
  intros Hb. cbv zeta.
  assert (Hrest : getRoomUsers (fst (on_leave_room s c now))
                    (UserData.room userData)
                  = filter (λ u, Member.socketId u ≠ c)
                      (getRoomUsers s (UserData.room userData))).
  { rewrite (getRoomUsers_on_leave_room s c now userData) by done.
    by rewrite decide_True. }
  split; [done|].
  rewrite (on_leave_room_bound s c now userData Hb), Hrest.
  split; [done|].
  intros em Hem.
  assert (Hrec : recipients (fst (on_leave_room s c now)) em
                 = sockets_in s (UserData.room userData) ∖ {[c]}).
  { rewrite !elem_of_cons, elem_of_nil in Hem.
    destruct Hem as [-> | [-> | []]]; simpl;
      rewrite (sockets_in_on_leave_room s c now userData) by done;
      by rewrite decide_True. }
  rewrite Hrec. split.
  - rewrite elem_of_difference, elem_of_singleton. tauto.
  - intros Hatt m [Hne Hm]%list_elem_of_filter.
    rewrite elem_of_difference, elem_of_singleton. split; [by apply Hatt | done].
Qed.

Lemma leave_room_notifies_the_others_witness :
  snd (on_leave_room two_members connA 2)
  = [io_to_emit "lobby" (receive_message (SystemMessage "alice left the room" 2));
     io_to_emit "lobby" (user_list_update ["bob"])].
Proof.
  apply (leave_room_notifies_the_others two_members connA 2
           (UserData.Make "lobby" "alice") eq_refl).
Defined.
